(** * IperChain simplified node: ledger, PoA rotation, pool and RPC dispatcher

    A shallow embedding of the node program (the one that starts with
    "IperChain Simplified Node": [initGenesisBlock], [validateBlock],
    [addBlock], [handleRPCRequest], [processMethod], [createTransaction],
    [mineBlock], [startMining]) and of the part of [network/p2p-node.js]
    the node calls, with the dispatch of its subscriptions, and of
    [verifyBatchAgainstContract] of the producer's command line.

    Conventions of the embedding.
    - The process-wide [state] object and the module variable
      [currentAuthorityIndex] are threaded explicitly; code that can throw
      lives in a small state-and-exception monad [M].  A throw keeps the
      mutations made before it, as in JavaScript.
    - Objects used as dictionaries ([state.accounts], [state.contracts])
      are [gmap string _]; the order of [Object.keys] is not modelled, and
      addresses are assumed not to be names of [Object.prototype] members.
    - Numeric strings handed to [BigInt] (balances, transaction values) are
      kept as the integers they denote ([Z]); JS numbers that hold integers
      are [Z] as well (no rounding above 2^53).
    - [None] stands for a member that is missing ([undefined]) or [null].
    - [Date.now()] is an input of every entry point that reads the clock; it
      is not negative.
    - [crypto.createHash('sha256')] is SHA-256 itself, see [SHA256].
    - Records are values.  The one place where the program shares objects
      that it later mutates is [mineBlock]: the snapshot it processes holds
      the transaction objects of the pool, and so does the block it builds.
      The pool of the model holds the processed transactions.  A block that
      waits for its broadcast keeps the values its own call wrote, also when
      a later call rewrites the [blockNumber], [blockHash] and
      [contractAddress] members of objects still in the pool; no statement
      below reads these members of a waiting block.
    - The shutdown signal, after which the process exits, is not an event. *)

From Stdlib Require Import ZArith NArith Ascii String List Lia Bool.
From stdpp Require Import base option list gmap strings fin_maps.

Local Open Scope Z_scope.

(** ** JavaScript primitives *)

Module JS.

Definition quote : ascii := ascii_of_nat 34.
Definition backslash : ascii := ascii_of_nat 92.

Definition digitChar (d : N) : ascii :=
  ascii_of_N (if (d <? 10)%N then 48 + d else 87 + d)%N.

Fixpoint digits (radix : N) (fuel : nat) (x : N) (acc : string) : string :=
  match fuel with
  | O => acc
  | S k =>
      let acc' := String (digitChar (x mod radix)) acc in
      if (x / radix =? 0)%N then acc' else digits radix k (x / radix) acc'
  end.

(** [n.toString(radix)] for an integer [n] and a radix between 2 and 16. *)
Definition toString (radix : N) (n : Z) : string :=
  let body := digits radix (S (N.size_nat (Z.abs_N n))) (Z.abs_N n) EmptyString in
  if n <? 0 then String "-" body else body.

(** A JS number that is an integer, or NaN. *)
Definition number : Type := option Z.

Definition isSpace (c : ascii) : bool :=
  let n := nat_of_ascii c in
  (n =? 32)%nat || ((9 <=? n)%nat && (n <=? 13)%nat).

Fixpoint trimStart (s : string) : string :=
  match s with
  | String c r => if isSpace c then trimStart r else s
  | EmptyString => s
  end.

Definition hexValue (c : ascii) : option Z :=
  let n := Z.of_nat (nat_of_ascii c) in
  if (48 <=? n) && (n <=? 57) then Some (n - 48)
  else if (97 <=? n) && (n <=? 102) then Some (n - 87)
  else if (65 <=? n) && (n <=? 70) then Some (n - 55)
  else None.

(** The longest prefix of hexadecimal digits, as a number; NaN if empty. *)
Fixpoint hexPrefix (s : string) (acc : number) : number :=
  match s with
  | String c r =>
      match hexValue c with
      | Some d => hexPrefix r (Some (16 * default 0 acc + d))
      | None => acc
      end
  | EmptyString => acc
  end.

Definition stripRadixPrefix (s : string) : string :=
  match s with
  | String "0" (String "x" r) => r
  | String "0" (String "X" r) => r
  | _ => s
  end.

(** [parseInt(s, 16)]. *)
Definition parseInt16 (s : string) : number :=
  match trimStart s with
  | String "-" r => Z.opp <$> hexPrefix (stripRadixPrefix r) None
  | String "+" r => hexPrefix (stripRadixPrefix r) None
  | r => hexPrefix (stripRadixPrefix r) None
  end.

(** [hay.includes(needle)] and [s.startsWith(p)]. *)
Fixpoint includes (needle hay : string) : bool :=
  String.prefix needle hay ||
  match hay with
  | String _ r => includes needle r
  | EmptyString => false
  end.

Definition startsWith (p s : string) : bool := String.prefix p s.

(** Truthiness of a string member that may be missing. *)
Definition truthy (o : option string) : bool :=
  match o with
  | Some (String _ _) => true
  | _ => false
  end.

(** [a || b] on such members. *)
Definition orElse (o : option string) (d : string) : string :=
  match o with
  | Some (String c r) => String c r
  | _ => d
  end.

(** The property key an optional string is coerced to in [obj[key]]. *)
Definition key (o : option string) : string := default "undefined"%string o.

Fixpoint escape (s : string) : string :=
  match s with
  | EmptyString => EmptyString
  | String c r =>
      let n := N_of_ascii c in
      let e :=
        if Ascii.eqb c quote then String backslash (String quote EmptyString)
        else if Ascii.eqb c backslash then String backslash (String backslash EmptyString)
        else if (n =? 8)%N then String backslash "b"
        else if (n =? 9)%N then String backslash "t"
        else if (n =? 10)%N then String backslash "n"
        else if (n =? 12)%N then String backslash "f"
        else if (n =? 13)%N then String backslash "r"
        else if (n <? 32)%N then
          String backslash ("u00" +:+ String (digitChar (n / 16)) (String (digitChar (n mod 16)) EmptyString))
        else String c EmptyString in
      e +:+ escape r
  end.

(** [JSON.stringify] of a string. *)
Definition stringifyString (s : string) : string :=
  String quote (escape s +:+ String quote EmptyString).

End JS.

(** ** SHA-256 (FIPS 180-4), the digest behind [crypto.createHash('sha256')] *)

Module SHA256.

Local Open Scope N_scope.

Definition mask32 : N := 4294967295.
Definition add32 (x y : N) : N := N.land (x + y) mask32.
Definition rotr (n x : N) : N :=
  N.lor (N.shiftr x n) (N.land (N.shiftl x (32 - n)) mask32).
Definition not32 (x : N) : N := N.lxor x mask32.
Definition Ch (x y z : N) : N := N.lxor (N.land x y) (N.land (not32 x) z).
Definition Maj (x y z : N) : N :=
  N.lxor (N.lxor (N.land x y) (N.land x z)) (N.land y z).
Definition bsig0 (x : N) : N := N.lxor (N.lxor (rotr 2 x) (rotr 13 x)) (rotr 22 x).
Definition bsig1 (x : N) : N := N.lxor (N.lxor (rotr 6 x) (rotr 11 x)) (rotr 25 x).
Definition ssig0 (x : N) : N := N.lxor (N.lxor (rotr 7 x) (rotr 18 x)) (N.shiftr x 3).
Definition ssig1 (x : N) : N := N.lxor (N.lxor (rotr 17 x) (rotr 19 x)) (N.shiftr x 10).

(** The round constants and the initial hash value, in decimal. *)
Definition K : list N :=
  [ 1116352408; 1899447441; 3049323471; 3921009573;
    961987163; 1508970993; 2453635748; 2870763221;
    3624381080; 310598401; 607225278; 1426881987;
    1925078388; 2162078206; 2614888103; 3248222580;
    3835390401; 4022224774; 264347078; 604807628;
    770255983; 1249150122; 1555081692; 1996064986;
    2554220882; 2821834349; 2952996808; 3210313671;
    3336571891; 3584528711; 113926993; 338241895;
    666307205; 773529912; 1294757372; 1396182291;
    1695183700; 1986661051; 2177026350; 2456956037;
    2730485921; 2820302411; 3259730800; 3345764771;
    3516065817; 3600352804; 4094571909; 275423344;
    430227734; 506948616; 659060556; 883997877;
    958139571; 1322822218; 1537002063; 1747873779;
    1955562222; 2024104815; 2227730452; 2361852424;
    2428436474; 2756734187; 3204031479; 3329325298 ].

Definition H0 : list N :=
  [ 1779033703; 3144134277; 1013904242; 2773480762;
    1359893119; 2600822924; 528734635; 1541459225 ].

Fixpoint bytesOf (s : string) : list N :=
  match s with
  | EmptyString => []
  | String c r => N_of_ascii c :: bytesOf r
  end.

(** The [n] low bytes of [x], most significant first. *)
Fixpoint bigEndian (n : nat) (x : N) : list N :=
  match n with
  | O => []
  | S k => N.land (N.shiftr x (8 * N.of_nat k)) 255 :: bigEndian k x
  end.

Definition pad (m : list N) : list N :=
  let l := N.of_nat (length m) in
  let z := N.to_nat ((119 - l mod 64) mod 64) in
  m ++ 128 :: repeat 0 z ++ bigEndian 8 (8 * l).

Fixpoint words (fuel : nat) (bs : list N) : list N :=
  match fuel, bs with
  | S k, a :: b :: c :: d :: r =>
      (N.shiftl a 24 + N.shiftl b 16 + N.shiftl c 8 + d) :: words k r
  | _, _ => []
  end.

(** The message schedule, newest word first. *)
Fixpoint extend (n : nat) (w : list N) : list N :=
  match n with
  | O => w
  | S k =>
      let g i := nth i w 0 in
      extend k (add32 (add32 (ssig1 (g 1%nat)) (g 6%nat))
                      (add32 (ssig0 (g 14%nat)) (g 15%nat)) :: w)
  end.

Definition round (st : list N) (kw : N * N) : list N :=
  match st with
  | [a; b; c; d; e; f; g; h] =>
      let t1 := add32 (add32 (add32 h (bsig1 e)) (add32 (Ch e f g) (fst kw))) (snd kw) in
      let t2 := add32 (bsig0 a) (Maj a b c) in
      [add32 t1 t2; a; b; c; add32 d t1; e; f; g]
  | _ => st
  end.

Definition compress (h blk : list N) : list N :=
  let w := rev (extend 48 (rev blk)) in
  let st := fold_left round (combine K w) h in
  map (fun p => add32 (fst p) (snd p)) (combine h st).

Fixpoint chain (fuel : nat) (ws h : list N) : list N :=
  match fuel with
  | O => h
  | S k =>
      match ws with
      | [] => h
      | _ => chain k (skipn 16 ws) (compress h (firstn 16 ws))
      end
  end.

Fixpoint hexFixed (n : nat) (x : N) : string :=
  match n with
  | O => EmptyString
  | S k => String (JS.digitChar (N.land (N.shiftr x (4 * N.of_nat k)) 15)) (hexFixed k x)
  end.

(** [crypto.createHash('sha256').update(s).digest('hex')]. *)
Definition digest (s : string) : string :=
  let p := pad (bytesOf s) in
  let ws := words (length p) p in
  fold_right (fun w acc => hexFixed 8 w +:+ acc) EmptyString (chain (length ws) ws H0).

End SHA256.

Definition sha256 (s : string) : string := SHA256.digest s.
Global Arguments sha256 : simpl never.

(** ** Data model *)

(** A numeric member of a block as it is found in the chain: the genesis
    block carries JS numbers, [mineBlock] writes the strings
    ['0x' + n.toString(16)], and peers gossip them as they are. *)
Inductive Quantity :=
| QNum (n : Z)    (* the JS number n *)
| QHex (n : N).   (* the string '0x' + n.toString(16) *)

Definition hex (n : Z) : string := "0x" +:+ JS.toString 16 n.

Definition quantityText (q : Quantity) : string :=
  match q with
  | QNum n => JS.toString 10 n
  | QHex n => hex (Z.of_N n)
  end.

(** [q + 1] read as a number, as [Math.max] does.  On a JS number this is
    the successor.  On a string the [+] concatenates: ['0x' + digits + '1']
    has one more hexadecimal digit, and its numeric value is 16 n + 1. *)
Definition plusOne (q : Quantity) : Z :=
  match q with
  | QNum n => n + 1
  | QHex n => 16 * Z.of_N n + 1
  end.

(** [q !== 0] *)
Definition isNotZero (q : Quantity) : bool :=
  match q with
  | QNum 0 => false
  | _ => true
  end.

Module Tx.
Record t := mk {
  hash : string;
  from : option string;
  to : option string;               (* None: contract creation *)
  value : Z;
  gas : string;
  gasPrice : string;
  input : string;
  nonce : string;
  contractAddress : option string;  (* the three members mineBlock adds *)
  blockNumber : option string;
  blockHash : option string
}.
End Tx.

Module Block.
Record t := mk {
  number : Quantity;
  hash : option string;
  parentHash : option string;
  timestamp : Quantity;
  transactions : list Tx.t;
  miner : option string;
  difficulty : string;
  totalDifficulty : string;
  size : string;
  gasUsed : string;
  gasLimit : string
}.
End Block.

Module Account.
Record t := mk { balance : Z; nonce : Z }.
End Account.

Module Contract.
Record t := mk {
  bytecode : string;
  storage : gmap string string;
  creator : option string
}.
End Contract.

(** The [state] object.  [p2pNode] records whether [state.p2pNode] is set;
    [miningInterval] is the timer handle and carries no data. *)
Record State := mkState {
  blocks : list Block.t;
  transactions : list Tx.t;
  pendingTransactions : list Tx.t;
  contracts : gmap string Contract.t;
  accounts : gmap string Account.t;
  nextBlockNumber : Z;
  mining : bool;
  p2pNode : bool
}.

(** The node: [state], the module variable [currentAuthorityIndex], and what
    the event loop holds for it: the [setTimeout(() => mineBlock(), 500)]
    callbacks not yet run, and the blocks of the [mineBlock] calls that are
    suspended at [await state.p2pNode.broadcastBlock(newBlock)]. *)
Record Node := mkNode {
  state : State;
  currentAuthorityIndex : nat;
  timeouts : nat;
  suspended : list Block.t
}.

Definition AUTHORITIES : list string :=
  [ "0x742d35Cc6634C0532925a3b844Bc454e4438f44e";
    "0x123f681646d4a755815f9cb19e1acc8565a0c2ac";
    "0x456f681646d4a755815f9cb19e1acc8565a0c2ac";
    "0x999f681646d4a755815f9cb19e1acc8565a0c2ac" ]%string.

(** *** Field updates *)

Definition set_blocks (v : list Block.t) (s : State) : State :=
  mkState v (transactions s) (pendingTransactions s) (contracts s) (accounts s)
          (nextBlockNumber s) (mining s) (p2pNode s).
Definition set_transactions (v : list Tx.t) (s : State) : State :=
  mkState (blocks s) v (pendingTransactions s) (contracts s) (accounts s)
          (nextBlockNumber s) (mining s) (p2pNode s).
Definition set_pendingTransactions (v : list Tx.t) (s : State) : State :=
  mkState (blocks s) (transactions s) v (contracts s) (accounts s)
          (nextBlockNumber s) (mining s) (p2pNode s).
Definition set_contracts (v : gmap string Contract.t) (s : State) : State :=
  mkState (blocks s) (transactions s) (pendingTransactions s) v (accounts s)
          (nextBlockNumber s) (mining s) (p2pNode s).
Definition set_accounts (v : gmap string Account.t) (s : State) : State :=
  mkState (blocks s) (transactions s) (pendingTransactions s) (contracts s) v
          (nextBlockNumber s) (mining s) (p2pNode s).
Definition set_nextBlockNumber (v : Z) (s : State) : State :=
  mkState (blocks s) (transactions s) (pendingTransactions s) (contracts s) (accounts s)
          v (mining s) (p2pNode s).
Definition set_mining (v : bool) (s : State) : State :=
  mkState (blocks s) (transactions s) (pendingTransactions s) (contracts s) (accounts s)
          (nextBlockNumber s) v (p2pNode s).

Definition on_state (f : State -> State) (n : Node) : Node :=
  mkNode (f (state n)) (currentAuthorityIndex n) (timeouts n) (suspended n).
Definition set_currentAuthorityIndex (v : nat) (n : Node) : Node :=
  mkNode (state n) v (timeouts n) (suspended n).
Definition set_timeouts (v : nat) (n : Node) : Node :=
  mkNode (state n) (currentAuthorityIndex n) v (suspended n).
Definition set_suspended (v : list Block.t) (n : Node) : Node :=
  mkNode (state n) (currentAuthorityIndex n) (timeouts n) v.

(** ** The state-and-exception monad *)

Inductive Outcome (A : Type) :=
| Return (a : A) (n : Node)
| Throw (message : string) (n : Node).
Arguments Return {A} a n.
Arguments Throw {A} message n.

Definition M (A : Type) : Type := Node -> Outcome A.

#[global] Instance M_ret : MRet M := fun A a n => Return a n.
#[global] Instance M_bind : MBind M := fun A B k c n =>
  match c n with
  | Return a n' => k a n'
  | Throw e n' => Throw e n'
  end.
#[global] Instance M_throw : MThrow string M := fun A message n => Throw message n.

Definition get : M State := fun n => Return (state n) n.
Definition update (f : State -> State) : M unit := fun n => Return tt (on_state f n).
Definition lift (f : Node -> Node) : M unit := fun n => Return tt (f n).

Definition finalNode {A} (o : Outcome A) : Node :=
  match o with
  | Return _ n => n
  | Throw _ n => n
  end.

(** ** Genesis and start-up *)

Definition zeroHash : string :=
  "0x0000000000000000000000000000000000000000000000000000000000000000".
Definition zeroAddress : string := "0x0000000000000000000000000000000000000000".

(** [Math.floor(Date.now() / 1000)] *)
Definition seconds (now : Z) : Z := now / 1000.

(** The [state] object as the program text initialises it. *)
Definition emptyState : State :=
  mkState [] [] [] ∅ ∅ 0 false false.

Definition thousandEther : Z := 1000000000000000000000.

Definition initGenesisBlock (now : Z) (s : State) : State :=
  let timestamp := seconds now in
  let genesisBlock :=
    Block.mk (QNum 0)
             (Some ("0x" +:+ sha256 ("genesis-" +:+ JS.toString 10 timestamp)))
             (Some zeroHash) (QNum timestamp) [] (Some zeroAddress)
             "0x1" "0x1" "0x0" "0x0" "0x1000000" in
  let testAccount := Account.mk thousandEther 0 in
  let s := set_blocks (blocks s ++ [genesisBlock]) s in
  let s := set_nextBlockNumber 1 s in
  set_accounts
    (<["0x999f681646d4a755815f9cb19e1acc8565a0c2ac"%string := testAccount]>
    (<["0x456f681646d4a755815f9cb19e1acc8565a0c2ac"%string := testAccount]>
    (<["0x123f681646d4a755815f9cb19e1acc8565a0c2ac"%string := testAccount]>
    (<["0x742d35Cc6634C0532925a3b844Bc454e4438f44e"%string := testAccount]>
       (accounts s))))) s.

(** [initP2PNode] stores the transport object in [state.p2pNode]. *)
Definition initP2PNode (s : State) : State :=
  mkState (blocks s) (transactions s) (pendingTransactions s) (contracts s) (accounts s)
          (nextBlockNumber s) (mining s) true.

Definition startMining (s : State) : State :=
  if mining s then s else set_mining true s.

Definition stopMining (s : State) : State :=
  if mining s then set_mining false s else s.

(** The node once [startServer] has run and the server listens:
    [initGenesisBlock], [initP2PNode], and [startMining] from the listen
    callback; [currentAuthorityIndex] starts at 0. *)
Definition startServer (now : Z) : Node :=
  mkNode (startMining (initP2PNode (initGenesisBlock now emptyState))) 0 0 [].

(** ** Validation and chain extension *)

Definition sameHash (h : option string) (b : Block.t) : bool :=
  bool_decide (Block.hash b = h).

Definition validateBlock (block : Block.t) (s : State) : bool :=
  if negb (JS.truthy (Block.hash block)) || negb (JS.truthy (Block.parentHash block))
  then false
  else
    let parentBlock := List.find (sameHash (Block.parentHash block)) (blocks s) in
    if negb (bool_decide (is_Some parentBlock)) && isNotZero (Block.number block)
    then false
    else if negb (bool_decide (Block.miner block ∈ (Some <$> AUTHORITIES)))
    then false
    else true.

Definition addBlock (block : Block.t) (s : State) : State :=
  match List.find (sameHash (Block.hash block)) (blocks s) with
  | Some _ => s
  | None =>
      let txHashes := List.map Tx.hash (Block.transactions block) in
      mkState (blocks s ++ [block])
              (transactions s ++ Block.transactions block)
              (List.filter (fun tx => negb (bool_decide (Tx.hash tx ∈ txHashes)))
                           (pendingTransactions s))
              (contracts s) (accounts s)
              (Z.max (nextBlockNumber s) (plusOne (Block.number block)))
              (mining s) (p2pNode s)
  end.

(** ** The message handlers installed by [initP2PNode] *)

Definition onTransaction (tx : Tx.t) (s : State) : State :=
  match List.find (fun t => bool_decide (Tx.hash t = Tx.hash tx)) (pendingTransactions s) with
  | Some _ => s
  | None => set_pendingTransactions (pendingTransactions s ++ [tx]) s
  end.

(** [validateBlock] has no [await] inside, and the chain only grows, so the
    verdict still holds when the handler resumes and calls [addBlock]. *)
Definition onBlock (block : Block.t) (s : State) : State :=
  if validateBlock block s then addBlock block s else s.

(** [handleConsensusMessage]: every case of its [switch] is empty. *)
Definition handleConsensusMessage (s : State) : State := s.

(** ** Block production *)

(** The two PoA lines of [mineBlock]:
    [AUTHORITIES[currentAuthorityIndex]] and the cursor that follows. *)
Definition selectAuthority (authorities : list string) (index : nat) : option string * nat :=
  (authorities !! index, (index + 1) mod length authorities)%nat.

Definition blockHashOf (blockNumber timestamp : Z) : string :=
  "0x" +:+ sha256 ("block-" +:+ JS.toString 10 blockNumber +:+ "-" +:+ JS.toString 10 timestamp).

Definition contractAddressOf (tx : Tx.t) : string :=
  "0x" +:+ String.substring 0 40 (sha256 (Tx.hash tx +:+ Tx.nonce tx)).

Definition debit (value : Z) (a : Account.t) : Account.t :=
  Account.mk (Account.balance a - value) (Account.nonce a).
Definition credit (value : Z) (a : Account.t) : Account.t :=
  Account.mk (Account.balance a + value) (Account.nonce a).

(** The balance part of the loop body. *)
Definition transfer (tx : Tx.t) (accs : gmap string Account.t) : gmap string Account.t :=
  if JS.truthy (Tx.to tx) && (0 <? Tx.value tx) then
    let accs :=
      match accs !! JS.key (Tx.from tx) with
      | Some a => <[JS.key (Tx.from tx) := debit (Tx.value tx) a]> accs
      | None => accs
      end in
    match accs !! JS.key (Tx.to tx) with
    | Some a => <[JS.key (Tx.to tx) := credit (Tx.value tx) a]> accs
    | None => <[JS.key (Tx.to tx) := Account.mk (Tx.value tx) 0]> accs
    end
  else accs.

Definition createsContract (tx : Tx.t) : bool :=
  negb (JS.truthy (Tx.to tx)) && JS.truthy (Some (Tx.input tx)).

(** The body of [transactions.forEach]: the state after it and the
    transaction object after it. *)
Definition processTransaction (blockNumber timestamp : Z) (s : State) (tx : Tx.t)
  : State * Tx.t :=
  let s := set_accounts (transfer tx (accounts s)) s in
  let s :=
    if createsContract tx
    then set_contracts
           (<[contractAddressOf tx := Contract.mk (Tx.input tx) ∅ (Tx.from tx)]> (contracts s)) s
    else s in
  (s, Tx.mk (Tx.hash tx) (Tx.from tx) (Tx.to tx) (Tx.value tx) (Tx.gas tx) (Tx.gasPrice tx)
            (Tx.input tx) (Tx.nonce tx)
            (if createsContract tx then Some (contractAddressOf tx) else Tx.contractAddress tx)
            (Some (hex blockNumber))
            (Some (blockHashOf blockNumber timestamp))).

Global Arguments processTransaction : simpl never.

Fixpoint processTransactions (blockNumber timestamp : Z) (s : State) (txs : list Tx.t)
  : State * list Tx.t :=
  match txs with
  | [] => (s, [])
  | tx :: rest =>
      let first := processTransaction blockNumber timestamp s tx in
      let others := processTransactions blockNumber timestamp (fst first) rest in
      (fst others, snd first :: snd others)
  end.

(** [state.blocks[i]] for a JS number [i]. *)
Definition blockAt (i : Z) (s : State) : option Block.t :=
  if i <? 0 then None else blocks s !! Z.to_nat i.

(** [mineBlock] up to [await state.p2pNode.broadcastBlock(newBlock)].
    The result is [None] when the pool is empty and the candidate block
    otherwise.  The transaction objects of the snapshot are those of the
    pool, so the pool holds them as the loop leaves them. *)
Definition mineBlockSync (now : Z) : M (option Block.t) :=
  s ← get;
  if bool_decide (pendingTransactions s = []) then mret None
  else
    n ← (fun n => Return n n);
    let '(currentAuthority, next) := selectAuthority AUTHORITIES (currentAuthorityIndex n) in
    lift (set_currentAuthorityIndex next);;
    let blockNumber := nextBlockNumber s in
    let timestamp := seconds now in
    match blockAt (blockNumber - 1) s with
    | None => mthrow "Cannot read properties of undefined (reading 'hash')"%string
    | Some parent =>
        let parentHash := Block.hash parent in
        let processed :=
          processTransactions blockNumber timestamp s (pendingTransactions s) in
        let transactions := snd processed in
        update (fun _ => set_pendingTransactions transactions (fst processed));;
        let count := Z.of_nat (length transactions) in
        mret (Some (Block.mk (QHex (Z.to_N blockNumber))
                             (Some (blockHashOf blockNumber timestamp))
                             parentHash
                             (QHex (Z.to_N timestamp))
                             transactions
                             currentAuthority
                             "0x1"
                             (hex (blockNumber + 1))
                             (hex (1000 + count * 500))
                             (hex (count * 21000))
                             "0x1000000"))
    end.

(** A call [mineBlock()] as its callers make it, without awaiting: the
    synchronous part runs at once; an exception only rejects the promise;
    with a transport the call is suspended before [addBlock], without one
    [addBlock] runs in the same turn. *)
Definition mineBlock (now : Z) (n : Node) : Node :=
  match mineBlockSync now n with
  | Throw _ n' => n'
  | Return None n' => n'
  | Return (Some newBlock) n' =>
      if p2pNode (state n')
      then set_suspended (suspended n' ++ [newBlock]) n'
      else on_state (addBlock newBlock) n'
  end.

(** The rest of a suspended [mineBlock]: [addBlock(newBlock)]. *)
Definition resumeMineBlock (i : nat) (n : Node) : Node :=
  match suspended n !! i with
  | Some newBlock =>
      on_state (addBlock newBlock) (set_suspended (delete i (suspended n)) n)
  | None => n
  end.

(** ** The RPC gateway *)

(** The object a client passes to [eth_sendTransaction] or [eth_call].
    [json] is its [JSON.stringify] text, which depends on the order and the
    spelling the client chose and is therefore part of the input. *)
Module TxParams.
Record t := mk {
  json : string;
  from : option string;
  to : option string;
  value : option Z;
  gas : option string;
  gasPrice : option string;
  data : option string
}.
(** What member access finds on a string or a boolean: nothing. *)
Definition none (text : string) : t := mk text None None None None None None.
End TxParams.

Inductive Param :=
| PStr (s : string)
| PBool (b : bool)
| PObj (o : TxParams.t).

Module Request.
Record t := mk {
  id : option Z;
  method : string;
  params : option (list Param)   (* None: the request has no params *)
}.
End Request.

Module Receipt.
Record t := mk {
  transactionHash : string;
  transactionIndex : string;
  blockHash : string;
  blockNumber : string;
  from : option string;
  to : option string;
  cumulativeGasUsed : string;
  gasUsed : string;
  contractAddress : option string;
  logs : list string;
  status : string
}.
End Receipt.

Inductive Result :=
| RNull
| RTrue
| RStr (s : string)
| RKeys (l : list string)
| RTx (t : Tx.t)
| RBlock (b : Block.t) (includeTransactions : bool)  (* hashes only when false *)
| REmptyObject
| RReceipt (r : Receipt.t).

Module RpcError.
Record t := mk { code : Z; message : string; data : option string }.
End RpcError.

Module Response.
Record t := mk {
  id : option Z;
  result : option Result;     (* None: no result member *)
  error : option RpcError.t   (* None: no error member *)
}.
End Response.

(** [params[i]]; reading an index of a missing [params] throws. *)
Definition param (params : option (list Param)) (i : nat) : M (option Param) :=
  match params with
  | None => mthrow "Cannot read properties of undefined (reading '0')"%string
  | Some l => mret (l !! i)
  end.

(** String coercion of a parameter. *)
Definition paramText (p : option Param) : string :=
  match p with
  | None => "undefined"
  | Some (PStr s) => s
  | Some (PBool true) => "true"
  | Some (PBool false) => "false"
  | Some (PObj _) => "[object Object]"
  end.

Definition paramTruthy (p : option Param) : bool :=
  match p with
  | None => false
  | Some (PStr s) => JS.truthy (Some s)
  | Some (PBool b) => b
  | Some (PObj _) => true
  end.

(** [t.hash === p] *)
Definition hashIs (p : option Param) (t : Tx.t) : bool :=
  match p with
  | Some (PStr h) => bool_decide (Tx.hash t = h)
  | _ => false
  end.

Definition stringify (p : Param) : string :=
  match p with
  | PStr s => JS.stringifyString s
  | PBool true => "true"
  | PBool false => "false"
  | PObj o => TxParams.json o
  end.

Definition members (p : Param) : TxParams.t :=
  match p with
  | PObj o => o
  | _ => TxParams.none (stringify p)
  end.

Definition bumpNonce (address : string) (s : State) : State :=
  match accounts s !! address with
  | Some a =>
      set_accounts (<[address := Account.mk (Account.balance a) (Account.nonce a + 1)]> (accounts s)) s
  | None => s
  end.

(** The object literal of [createTransaction], for the nonce read from
    the sender's account. *)
Definition transactionObject (now : Z) (p : Param) (nonce : Z) : Tx.t :=
  let o := members p in
  Tx.mk ("0x" +:+ sha256 (stringify p +:+ JS.toString 10 now))
        (TxParams.from o) (TxParams.to o)
        (default 0 (TxParams.value o))
        (JS.orElse (TxParams.gas o) "0x5208")
        (JS.orElse (TxParams.gasPrice o) "0x3b9aca00")
        (JS.orElse (TxParams.data o) "0x")
        (hex nonce)
        None None None.

Definition createTransaction (now : Z) (params : option Param) : M Tx.t :=
  match params with
  | None =>
      (* JSON.stringify(undefined) + Date.now() is NaN, which update() refuses *)
      mthrow "The data argument must be of type string or an instance of Buffer"%string
  | Some p =>
      s ← get;
      match accounts s !! JS.key (TxParams.from (members p)) with
      | None => mthrow "Cannot read properties of undefined (reading 'nonce')"%string
      | Some a =>
          let tx := transactionObject now p (Account.nonce a) in
          update (bumpNonce (JS.key (TxParams.from (members p))));;
          mret tx
      end
  end.

Definition push (tx : Tx.t) (s : State) : State :=
  set_pendingTransactions (pendingTransactions s ++ [tx]) s.

Definition defaultSender : string := "0x742d35Cc6634C0532925a3b844Bc454e4438f44e".
Definition defaultRecipient : string := "0x123f681646d4a755815f9cb19e1acc8565a0c2ac".

(** ['6060604052600080fd00'.repeat(10)] behind '0x'. *)
Definition dummyBytecode : string :=
  let u := "6060604052600080fd00"%string in
  "0x" +:+ u +:+ u +:+ u +:+ u +:+ u +:+ u +:+ u +:+ u +:+ u +:+ u.

Definition receiptOf (tx : Tx.t) : Receipt.t :=
  Receipt.mk (Tx.hash tx) "0x0"
             (JS.orElse (Tx.blockHash tx) zeroHash)
             (JS.orElse (Tx.blockNumber tx) "0x0")
             (Tx.from tx) (Tx.to tx) "0x5208" "0x5208"
             (if JS.truthy (Tx.contractAddress tx) then Tx.contractAddress tx else None)
             [] "0x1".

Definition knownMethods : list string :=
  [ "web3_clientVersion"; "net_version"; "eth_chainId"; "eth_blockNumber";
    "eth_getBlockByNumber"; "eth_getTransactionByHash"; "eth_sendTransaction";
    "eth_getTransactionReceipt"; "eth_call"; "eth_accounts"; "eth_estimateGas";
    "eth_getBalance"; "eth_getCode"; "eth_sendRawTransaction"; "evm_mine" ]%string.

Definition eth_getBlockByNumber (params : option (list Param)) : M Result :=
  p0 ← param params 0;
  p1 ← param params 1;
  let blockNumber := JS.parseInt16 (paramText p0) in
  let includeTransactions := paramTruthy p1 in
  s ← get;
  match blockNumber with
  | Some i =>
      if Z.of_nat (length (blocks s)) <=? i then mthrow "Block not found"%string
      else
        match blockAt i s with
        | Some b => mret (RBlock b includeTransactions)
        | None =>
            if includeTransactions then mret REmptyObject
            else mthrow "Cannot read properties of undefined (reading 'map')"%string
        end
  | None =>
      if includeTransactions then mret REmptyObject
      else mthrow "Cannot read properties of undefined (reading 'map')"%string
  end.

Definition eth_sendTransaction (now : Z) (params : option (list Param)) : M Result :=
  txParams ← param params 0;
  newTx ← createTransaction now txParams;
  update (push newTx);;
  s ← get;
  (if p2pNode s
   then mthrow "state.p2pNode.broadcastTransaction is not a function"%string
   else mret tt);;
  (if negb (mining s)
   then lift (fun n => set_timeouts (S (timeouts n)) n)
   else mret tt);;
  mret (RStr (Tx.hash newTx)).

Definition eth_call (params : option (list Param)) : M Result :=
  p0 ← param params 0;
  match p0 with
  | None => mthrow "Cannot read properties of undefined (reading 'to')"%string
  | Some p =>
      let callParams := members p in
      if negb (JS.truthy (TxParams.to callParams))
      then mthrow "To address is required"%string
      else
        s ← get;
        match contracts s !! JS.key (TxParams.to callParams) with
        | None => mret (RStr "0x")
        | Some _ =>
            let data := JS.orElse (TxParams.data callParams) String.EmptyString in
            if JS.startsWith "0x70a08231" data then
              mret (RStr "0x0000000000000000000000000000000000000000000000056bc75e2d63100000")
            else if JS.startsWith "0x06fdde03" data then
              mret (RStr "0x0000000000000000000000000000000000000000000000000000000000000020000000000000000000000000000000000000000000000000000000000000000a4970657220546f6b656e0000000000000000000000000000000000000000000000")
            else if JS.startsWith "0x18160ddd" data then
              mret (RStr "0x00000000000000000000000000000000000000000000152d02c7e14af6800000")
            else mret (RStr "0x")
        end
  end.

Definition eth_sendRawTransaction (now : Z) (params : option (list Param)) : M Result :=
  p0 ← param params 0;
  match p0 with
  | Some (PStr rawTx) =>
      s ← get;
      match accounts s !! defaultSender with
      | None => mthrow "Cannot read properties of undefined (reading 'nonce')"%string
      | Some a =>
          let simpleTx :=
            Tx.mk ("0x" +:+ sha256 rawTx) (Some defaultSender)
                  (if JS.includes "6060604" rawTx then None else Some defaultRecipient)
                  0 "0x5208" "0x3b9aca00" rawTx (hex (Account.nonce a))
                  None None None in
          update (push simpleTx);;
          update (bumpNonce defaultSender);;
          (if negb (mining s) then lift (mineBlock now) else mret tt);;
          (match Tx.to simpleTx with
           | None =>
               update (fun s =>
                 set_contracts
                   (<[contractAddressOf simpleTx :=
                        Contract.mk dummyBytecode ∅ (Tx.from simpleTx)]> (contracts s)) s)
           | Some _ => mret tt
           end);;
          mret (RStr (Tx.hash simpleTx))
      end
  | _ => mthrow "The data argument must be of type string or an instance of Buffer"%string
  end.

Definition processMethod (now : Z) (method : string) (params : option (list Param))
  : M Result :=
  if String.eqb method "web3_clientVersion" then mret (RStr "IperChain/v0.1.0")
  else if String.eqb method "net_version" then mret (RStr "1337")
  else if String.eqb method "eth_chainId" then mret (RStr "0x539")
  else if String.eqb method "eth_blockNumber" then
    s ← get; mret (RStr (hex (nextBlockNumber s - 1)))
  else if String.eqb method "eth_getBlockByNumber" then eth_getBlockByNumber params
  else if String.eqb method "eth_getTransactionByHash" then
    txHash ← param params 0;
    s ← get;
    match List.find (hashIs txHash) (transactions s) with
    | None => mret RNull
    | Some tx => mret (RTx tx)
    end
  else if String.eqb method "eth_sendTransaction" then eth_sendTransaction now params
  else if String.eqb method "eth_getTransactionReceipt" then
    receiptTxHash ← param params 0;
    s ← get;
    match List.find (hashIs receiptTxHash) (transactions s) with
    | None => mret RNull
    | Some receiptTx => mret (RReceipt (receiptOf receiptTx))
    end
  else if String.eqb method "eth_call" then eth_call params
  else if String.eqb method "eth_accounts" then
    s ← get; mret (RKeys (fst <$> map_to_list (accounts s)))
  else if String.eqb method "eth_estimateGas" then mret (RStr "0x5208")
  else if String.eqb method "eth_getBalance" then
    address ← param params 0;
    s ← get;
    match accounts s !! paramText address with
    | Some a => mret (RStr (hex (Account.balance a)))
    | None => mret (RStr "0x0")
    end
  else if String.eqb method "eth_getCode" then
    codeAddress ← param params 0;
    s ← get;
    match contracts s !! paramText codeAddress with
    | Some c => mret (RStr (Contract.bytecode c))
    | None => mret (RStr "0x")
    end
  else if String.eqb method "eth_sendRawTransaction" then eth_sendRawTransaction now params
  else if String.eqb method "evm_mine" then
    mthrow "mineBlocks is not defined"%string
  else mret RNull.

Definition parseError : RpcError.t := RpcError.mk (-32700) "Parse error" None.
Definition internalError (message : string) : RpcError.t :=
  RpcError.mk (-32603) "Internal error" (Some message).

(** [handleRPCRequest] once the body is complete.  [body] is what
    [JSON.parse] makes of it: [None] when it throws. *)
Definition handleRPCRequest (now : Z) (body : option Request.t) (n : Node)
  : Response.t * Node :=
  match body with
  | None => (Response.mk None None (Some parseError), n)
  | Some request =>
      match processMethod now (Request.method request) (Request.params request) n with
      | Return r n' => (Response.mk (Request.id request) (Some r) None, n')
      | Throw message n' =>
          (Response.mk (Request.id request) None (Some (internalError message)), n')
      end
  end.

(** ** The event loop *)

Inductive Event :=
| Rpc (now : Z) (body : option Request.t)   (* an HTTP POST has been read *)
| GossipTransaction (tx : Tx.t)
| GossipBlock (block : Block.t)
| GossipConsensus
| Timeout (now : Z)      (* a setTimeout(() => mineBlock(), 500) callback *)
| Interval (now : Z)     (* the 10 s interval of startMining *)
| Broadcast (i : nat).   (* broadcastBlock settles for the i-th suspended call *)

Definition step (e : Event) (n : Node) : Node :=
  match e with
  | Rpc now body => snd (handleRPCRequest now body n)
  | GossipTransaction tx => on_state (onTransaction tx) n
  | GossipBlock block => on_state (onBlock block) n
  | GossipConsensus => on_state handleConsensusMessage n
  | Timeout now =>
      match timeouts n with
      | O => n
      | S k => mineBlock now (set_timeouts k n)
      end
  | Interval now =>
      if mining (state n) && negb (bool_decide (pendingTransactions (state n) = []))
      then mineBlock now n
      else n
  | Broadcast i => resumeMineBlock i n
  end.

Definition run (events : list Event) (n : Node) : Node :=
  fold_left (fun n e => step e n) events n.

Inductive reachable : Node -> Prop :=
| reachable_start now : 0 <= now -> reachable (startServer now)
| reachable_step e n : reachable n -> reachable (step e n).

(** ** Predicates used in the statements *)

(** The hash [h] is the hash of a stored block. *)
Definition stored (h : option string) (s : State) : Prop :=
  exists b, b ∈ blocks s /\ Block.hash b = h.

(** The numeric value a [number] member stands for. *)
Definition numberValue (q : Quantity) : Z :=
  match q with
  | QNum n => n
  | QHex n => Z.of_N n
  end.

(** Height contiguity and parent linkage of a chain: the block at
    position [i] has number [i], and from position 1 on its [parentHash] is
    the hash of the block before it. *)
Fixpoint linkedFrom (i : Z) (previous : option Block.t) (chain : list Block.t) : bool :=
  match chain with
  | [] => true
  | b :: rest =>
      (numberValue (Block.number b) =? i)
      && match previous with
         | None => true
         | Some p => bool_decide (Block.parentHash b = Block.hash p)
         end
      && linkedFrom (i + 1) (Some b) rest
  end.

Definition linked (chain : list Block.t) : bool := linkedFrom 0 None chain.

(** A computation keeps [P]: if [P] holds of the node before, it holds of
    the node after, whether the computation returns or throws. *)
Definition preserves (P : Node -> Prop) {A} (c : M A) : Prop :=
  forall n, P n -> P (finalNode (c n)).

(** The transaction index lists the transactions of the chain, block by
    block. *)
Definition chainIndexed (s : State) : Prop :=
  transactions s = concat (Block.transactions <$> blocks s).

(** The hash [h] is the hash of a transaction of a block of the chain. *)
Definition included (h : string) (s : State) : Prop :=
  exists b tx, b ∈ blocks s /\ tx ∈ Block.transactions b /\ Tx.hash tx = h.

(** Every account of [before] is still there in [after], with the nonce it
    had. *)
Definition sameNonces (before after : gmap string Account.t) : Prop :=
  forall k a, before !! k = Some a ->
    exists a', after !! k = Some a' /\ Account.nonce a' = Account.nonce a.

Definition isRpc (e : Event) : bool :=
  match e with
  | Rpc _ _ => true
  | _ => false
  end.

(** The balances after the loop of [mineBlock] has gone through [txs]. *)
Definition settle (txs : list Tx.t) (accs : gmap string Account.t)
  : gmap string Account.t :=
  fold_left (fun accs tx => transfer tx accs) txs accs.

Definition nonnegative (accs : gmap string Account.t) : Prop :=
  forall k a, accs !! k = Some a -> 0 <= Account.balance a.

(** The debit of [tx], if the loop makes one, does not exceed the balance
    of the sender. *)
Definition covered (accs : gmap string Account.t) (tx : Tx.t) : bool :=
  if JS.truthy (Tx.to tx) && (0 <? Tx.value tx) then
    match accs !! JS.key (Tx.from tx) with
    | Some a => Tx.value tx <=? Account.balance a
    | None => true
    end
  else true.

(** Every transfer of [txs], taken in order, is covered when its turn
    comes. *)
Fixpoint funded (accs : gmap string Account.t) (txs : list Tx.t) : bool :=
  match txs with
  | [] => true
  | tx :: rest => covered accs tx && funded (transfer tx accs) rest
  end.

(** [count] successive selections from the cursor [index]. *)
Fixpoint selections (authorities : list string) (count index : nat)
  : list (option string) :=
  match count with
  | O => []
  | S c =>
      fst (selectAuthority authorities index)
      :: selections authorities c (snd (selectAuthority authorities index))
  end.

(** How many of the selections are the authority [a]. *)
Definition occurrences (a : string) (l : list (option string)) : nat :=
  length (List.filter (fun x => bool_decide (x = Some a)) l).

(** How many of [count] successive cursors, from [c] on, are [j]. *)
Fixpoint hits (K j count c : nat) : nat :=
  match count with
  | O => O
  | S n => (if (c =? j)%nat then 1 else 0) + hits K j n ((c + 1) mod K)
  end%nat.

(** The number of steps from the cursor [c] to the position [j]. *)
Definition ahead (K j c : nat) : nat :=
  (if (c <=? j)%nat then j - c else j + K - c)%nat.

(** ** Scenarios *)

Definition producer : string := "0x742d35Cc6634C0532925a3b844Bc454e4438f44e".
Definition certifier : string := "0x123f681646d4a755815f9cb19e1acc8565a0c2ac".

(** A node started at 2023-11-14 22:13:20 UTC. *)
Definition t0 : Z := 1700000000000.
Definition node0 : Node := startServer t0.
Definition genesisHash : string :=
  "0x7343cb8a5f82a37b433d414ee7436c9f40195d16263f384c34e88ea9fc131807".

(** Two blocks a peer may gossip: the first extends genesis; the second
    claims number 7 and names genesis as its parent once more. *)
Definition peerBlock : Block.t :=
  Block.mk (QHex 1) (Some "0xb1") (Some genesisHash) (QHex 1700000010) []
           (Some producer) "0x1" "0x2" "0x3e8" "0x0" "0x1000000".
Definition forkBlock : Block.t :=
  Block.mk (QHex 7) (Some "0xb2") (Some genesisHash) (QHex 1700000020) []
           (Some certifier) "0x1" "0x8" "0x3e8" "0x0" "0x1000000".

(** The JSON text of an object whose members are strings. *)
Fixpoint jsonMembers (members : list (string * string)) : string :=
  match members with
  | [] => String.EmptyString
  | [(k, v)] => JS.stringifyString k +:+ ":" +:+ JS.stringifyString v
  | (k, v) :: rest =>
      JS.stringifyString k +:+ ":" +:+ JS.stringifyString v +:+ "," +:+ jsonMembers rest
  end.
Definition jsonObject (members : list (string * string)) : string :=
  "{" +:+ jsonMembers members +:+ "}".

(** A transfer of [value] wei from the producer to the certifier, as a
    client passes it to [eth_sendTransaction]. *)
Definition transferParams (value : Z) : TxParams.t :=
  TxParams.mk (jsonObject [("from", producer); ("to", certifier); ("value", hex value)]%string)
              (Some producer) (Some certifier) (Some value) None None None.

Definition request (method : string) (params : list Param) : option Request.t :=
  Some (Request.mk (Some 1) method (Some params)).

Definition sendTransfer (now value : Z) : Event :=
  Rpc now (request "eth_sendTransaction" [PObj (transferParams value)]).

(** A sender that has no account. *)
Definition stranger : string := "0x000000000000000000000000000000000000dEaD".
Definition strangerParams : TxParams.t :=
  TxParams.mk (jsonObject [("from", stranger); ("to", certifier)]%string)
              (Some stranger) (Some certifier) None None None None.

Definition node1 : Node := run [GossipBlock peerBlock] node0.

(** The started node after a client has sent a transfer of 5 wei; then
    after the interval has fired; then after the broadcast has settled. *)
Definition submittedNode : Node := run [sendTransfer (t0 + 500) 5] node0.
Definition minedNode : Node :=
  run [sendTransfer (t0 + 500) 5; Interval (t0 + 10000); Broadcast 0] node0.
Definition minedHash : string :=
  Eval vm_compute in
    match pendingTransactions (state submittedNode) with
    | tx :: _ => Tx.hash tx
    | [] => String.EmptyString
    end.

(** The started node after a client has sent a transfer of twice the
    producer's balance and the interval has fired. *)
Definition overdraftNode : Node :=
  run [sendTransfer (t0 + 500) (2 * thousandEther); Interval (t0 + 10000)] node0.

(** After the first block has been added: a second transfer, and the
    interval fires again. *)
Definition secondAttemptNode : Node :=
  run [sendTransfer (t0 + 20000) 7; Interval (t0 + 30000)] minedNode.

(** The same raw transaction sent twice. *)
Definition rawPayload : string :=
  "0xf86b018504a817c80082520894123f681646d4a755815f9cb19e1acc8565a0c2ac8080".
Definition sendRaw (now : Z) : Event :=
  Rpc now (request "eth_sendRawTransaction" [PStr rawPayload]).
Definition resubmittedNode : Node := run [sendRaw (t0 + 500); sendRaw (t0 + 900)] node0.

(** ** Predicates for the further properties *)

(** The chain and the transaction index of [after] continue those of
    [before], and the height has not gone down. *)
Definition grows (before after : State) : Prop :=
  blocks before `prefix_of` blocks after
  /\ transactions before `prefix_of` transactions after
  /\ nextBlockNumber before <= nextBlockNumber after.

(** Every account of [before] is still there in [after], with a nonce that
    is not smaller. *)
Definition nonceGrows (before after : gmap string Account.t) : Prop :=
  forall k a, before !! k = Some a ->
    exists a', after !! k = Some a' /\ Account.nonce a <= Account.nonce a'.

(** Every contract address of [before] is still one of [after]. *)
Definition contractsKept (before after : gmap string Contract.t) : Prop :=
  forall k, is_Some (before !! k) -> is_Some (after !! k).

(** The block names one of the authorities as its miner. *)
Definition byAuthority (b : Block.t) : Prop :=
  exists a, a ∈ AUTHORITIES /\ Block.miner b = Some a.


(** The cursor is a position of [AUTHORITIES], the chain starts with a
    block, and every block after the first, stored or waiting for its
    broadcast, names an authority as its miner. *)
Definition authorityInvariant (n : Node) : Prop :=
  (currentAuthorityIndex n < length AUTHORITIES)%nat
  /\ Forall byAuthority (suspended n)
  /\ blocks (state n) <> []
  /\ Forall byAuthority (drop 1 (blocks (state n))).

(** The block that [minedNode] has produced. *)
Definition minedBlock : Block.t :=
  Eval vm_compute in
    match blocks (state minedNode) !! 1%nat with
    | Some b => b
    | None => peerBlock
    end.

(** ** Scenarios for the further properties *)

(** A block a peer gossips with the hash of the pooled transfer inside. *)
Definition carrierBlock : Block.t :=
  Block.mk (QHex 1) (Some "0xcafe"%string) (Some genesisHash) (QHex 1)
           (pendingTransactions (state submittedNode))
           (Some "0xAuthority1Address") "0x1" "0x2" "0x5dc" "0x5208" "0x1000000".
(** The genesis block of [node0]. *)
Definition genesisBlock : Block.t :=
  Eval vm_compute in
    match blocks (state node0) with
    | b :: _ => b
    | [] => peerBlock
    end.

(** A raw payload that holds the marker of contract bytecode. *)
Definition creationPayload : string := "0xf8606060604052600080fd00".

(** ** The producer's check of a batch against a contract *)

(** A field of a contract, as the interface files list them. *)
Module Field.
Record t := mk { name : string; required : bool }.
End Field.

(** The batch handed to [verifyBatchAgainstContract].  The five members it
    reads by name are strings or missing; [detail name] is the truthiness
    of [batchData.additionalDetails && batchData.additionalDetails[name]],
    whatever [additionalDetails] is. *)
Module BatchData.
Record t := mk {
  batchName : option string;
  producer : option string;
  productionDate : option string;
  grapeVariety : option string;
  location : option string;
  detail : string -> bool
}.
End BatchData.

Module Verdict.
Record t := mk { valid : bool; errors : list string }.
End Verdict.

(** [s.toLowerCase()].  Only the letters A to Z are mapped; the labels of
    the [switch] below are ASCII without the letter k, so no other
    character can lower-case into one of them. *)
Definition lowerChar (c : ascii) : ascii :=
  let n := nat_of_ascii c in
  if ((65 <=? n) && (n <=? 90))%nat then ascii_of_nat (n + 32) else c.

Fixpoint toLowerCase (s : string) : string :=
  match s with
  | EmptyString => EmptyString
  | String c r => String (lowerChar c) (toLowerCase r)
  end.

(** The truthiness of [batchValue] once the [switch] has run. *)
Definition batchValue (batchData : BatchData.t) (name : string) : bool :=
  let l := toLowerCase name in
  if String.eqb l "name" || String.eqb l "batchname"
  then JS.truthy (BatchData.batchName batchData)
  else if String.eqb l "producer" then JS.truthy (BatchData.producer batchData)
  else if String.eqb l "date" || String.eqb l "productiondate"
  then JS.truthy (BatchData.productionDate batchData)
  else if String.eqb l "grape" || String.eqb l "grapevariety"
  then JS.truthy (BatchData.grapeVariety batchData)
  else if String.eqb l "location" then JS.truthy (BatchData.location batchData)
  else BatchData.detail batchData name.

Definition missingMessage (name : string) : string :=
  "Required field " +:+ String JS.quote (name +:+ String JS.quote " is missing").

(** The body of the loop over [contract.fields]. *)
Definition checkField (batchData : BatchData.t) (errors : list string) (field : Field.t)
  : list string :=
  if Field.required field
  then if negb (batchValue batchData (Field.name field))
       then errors ++ [missingMessage (Field.name field)]
       else errors
  else errors.

Definition verifyBatchAgainstContract (batchData : BatchData.t)
    (contract : option (list Field.t)) : Verdict.t :=
  match contract with
  | None => Verdict.mk false ["Contract not found"%string]
  | Some fields =>
      let errors := fold_left (checkField batchData) fields [] in
      Verdict.mk (bool_decide (length errors = 0%nat)) errors
  end.

(** The required field is without a value in the batch. *)
Definition lacking (batchData : BatchData.t) (field : Field.t) : bool :=
  Field.required field && negb (batchValue batchData (Field.name field)).

(** A contract with three fields and a batch that has a name only. *)
Definition sampleFields : list Field.t :=
  [ Field.mk "Name" true; Field.mk "Vintage" true; Field.mk "Notes" false ].
Definition sampleBatch : BatchData.t :=
  BatchData.mk (Some "Barolo 2019"%string) None None None None (fun _ => false).

(** ** The transport ([network/p2p-node.js]) as the node uses it *)

Module IperChainP2PNode.







End IperChainP2PNode.





(** The chain starts with a block of number 0 that has the zero hash as
    parent and no transactions. *)
Definition startsAtGenesis (chain : list Block.t) : Prop :=
  exists g rest,
    chain = g :: rest
    /\ Block.number g = QNum 0
    /\ Block.parentHash g = Some zeroHash
    /\ Block.transactions g = [].

(** The node is mining and no [setTimeout] callback is waiting. *)
Definition noTimer (n : Node) : Prop :=
  mining (state n) = true /\ timeouts n = 0%nat.

(** * Properties *)

(** ** Tactics *)

(** Closed statements about the scenarios are settled by evaluation. *)
Ltac conjuncts := repeat match goal with |- _ /\ _ => split end.

Ltac in_list := repeat first [apply list_elem_of_here | apply list_elem_of_further].
Ltac not_in_list :=
  rewrite ?not_elem_of_cons; repeat split; first [discriminate | apply not_elem_of_nil].

(** Unfolds the operations of [M]. *)
Ltac run_M :=
  unfold mbind, M_bind, mret, M_ret, mthrow, M_throw, get, update, lift, param; simpl.

(** ** Test vectors *)

Example sha256_empty :
  sha256 EmptyString = "e3b0c44298fc1c149afbf4c8996fb92427ae41e4649b934ca495991b7852b855"%string.
Proof. vm_compute. reflexivity. Qed.

Example sha256_abc :
  sha256 "abc" = "ba7816bf8f01cfea414140de5dae2223b00361a396177a9cb410ff61f20015ad"%string.
Proof. vm_compute. reflexivity. Qed.

Example sha256_two_blocks :
  sha256 "abcdbcdecdefdefgefghfghighijhijkijkljklmklmnlmnomnopnopq"
  = "248d6a61d20638b8e5c026930c3e6039a33ce45964ff2167f6ecedd419db06c1"%string.
Proof. vm_compute. reflexivity. Qed.

Example toString_hex : JS.toString 16 255 = "ff"%string /\ JS.toString 16 0 = "0"%string
  /\ JS.toString 10 1700000000 = "1700000000"%string /\ JS.toString 16 (-26) = "-1a"%string.
Proof. vm_compute. auto. Qed.

Example parseInt16_samples :
  JS.parseInt16 "0x1f" = Some 31 /\ JS.parseInt16 "zz" = None
  /\ JS.parseInt16 "false" = Some 250 /\ JS.parseInt16 "-0x10" = Some (-16).
Proof. vm_compute. auto. Qed.

(** ** Lookups by hash *)

Lemma find_None_Forall {A} (f : A -> bool) (l : list A) :
  List.find f l = None <-> Forall (fun x => f x = false) l.
Proof.
  induction l as [|x l IH]; simpl.
  - split; auto.
  - destruct (f x) eqn:E.
    + split; [discriminate|]. intros H. inversion H; congruence.
    + rewrite IH. split; [auto|]. intros H. by inversion H.
Qed.

Lemma find_Some_exists {A} (f : A -> bool) (l : list A) :
  is_Some (List.find f l) <-> exists x, x ∈ l /\ f x = true.
Proof.
  induction l as [|x l IH]; simpl.
  - split; [intros [? ?]; discriminate | intros (? & H & _); inversion H].
  - destruct (f x) eqn:E.
    + split; [intros _; exists x; split; [left|done] | eauto].
    + rewrite IH. split.
      * intros (y & ? & ?). exists y. split; [by right|done].
      * intros (y & Hy & ?). inversion Hy; subst; [congruence|eauto].
Qed.

Lemma find_sameHash_stored h s :
  is_Some (List.find (sameHash h) (blocks s)) <-> stored h s.
Proof.
  rewrite find_Some_exists. unfold stored, sameHash.
  split; intros (b & ? & Hb); exists b; split; auto.
  - by apply bool_decide_eq_true in Hb.
  - by apply bool_decide_eq_true.
Qed.

Lemma find_sameHash_fresh h s :
  List.find (sameHash h) (blocks s) = None <-> ~ stored h s.
Proof.
  rewrite <- find_sameHash_stored. rewrite <- not_eq_None_Some.
  split; [auto|]. intros H. by destruct (List.find _ _); [destruct H|].
Qed.

Lemma addBlock_stored block s : stored (Block.hash block) s -> addBlock block s = s.
Proof.
  intros H. apply find_sameHash_stored in H as [b Hb].
  unfold addBlock. by rewrite Hb.
Qed.

Lemma addBlock_fresh block s :
  ~ stored (Block.hash block) s ->
  blocks (addBlock block s) = blocks s ++ [block]
  /\ transactions (addBlock block s) = transactions s ++ Block.transactions block.
Proof.
  intros H. apply find_sameHash_fresh in H.
  unfold addBlock. by rewrite H.
Qed.

Lemma addBlock_accounts block s : accounts (addBlock block s) = accounts s.
Proof. unfold addBlock. by destruct (List.find _ _). Qed.

Lemma addBlock_contracts block s : contracts (addBlock block s) = contracts s.
Proof. unfold addBlock. by destruct (List.find _ _). Qed.

Lemma on_state_id f n : f (state n) = state n -> on_state f n = n.
Proof. intros H. destruct n. unfold on_state. simpl in *. by rewrite H. Qed.

(** After a block has gone through [addBlock], its hash is stored. *)
Lemma addBlock_then_stored block s : stored (Block.hash block) (addBlock block s).
Proof.
  destruct (List.find (sameHash (Block.hash block)) (blocks s)) eqn:E.
  - rewrite addBlock_stored; apply find_sameHash_stored; by rewrite E.
  - apply find_sameHash_fresh in E. destruct (addBlock_fresh block s E) as [Hb _].
    exists block. rewrite Hb. split; [set_solver|done].
Qed.

Lemma addBlock_idempotent block s :
  addBlock block (addBlock block s) = addBlock block s.
Proof. apply addBlock_stored, addBlock_then_stored. Qed.

(** ** Reachable nodes *)

Lemma reachable_run events n : reachable n -> reachable (run events n).
Proof.
  revert n. induction events as [|e events IH]; intros n H; simpl; [done|].
  apply IH. by constructor.
Qed.

Lemma reachable_node0 : reachable node0.
Proof. by apply reachable_start. Qed.

Example genesisHash_is_head :
  Block.hash <$> blocks (state node0) = [Some genesisHash].
Proof. vm_compute. reflexivity. Qed.

(** ** C8: re-delivery of a stored block *)

(** C8.  A block whose hash is the hash of a block of the chain changes
    nothing when it is handed to [addBlock], and nothing when it is delivered
    again to the block handler ([validateBlock], then [addBlock]): the node
    (chain, transaction index, pool, accounts, contracts, cursor) is the
    same value afterwards. *)
Theorem C8_redelivered_block_is_ignored (block : Block.t) (n : Node) :
  stored (Block.hash block) (state n) ->
  addBlock block (state n) = state n /\ step (GossipBlock block) n = n.
Proof.
  intros H. split; [by apply addBlock_stored|].
  simpl. apply on_state_id. unfold onBlock.
  destruct (validateBlock block (state n)); [by apply addBlock_stored|done].
Qed.

(** The theorem at the node that has received peerBlock, for peerBlock. *)
Lemma C8_witness :
  stored (Block.hash peerBlock) (state node1)
  /\ (addBlock peerBlock (state node1) = state node1
      /\ step (GossipBlock peerBlock) node1 = node1).
Proof.
  assert (H : stored (Block.hash peerBlock) (state node1)).
  { exists peerBlock. split; [|reflexivity]. vm_compute. in_list. }
  split; [exact H|].
  exact (C8_redelivered_block_is_ignored peerBlock node1 H).
Defined.

(** ** C1: what [addBlock] checks before it appends *)

(** On the claim C1 as written: from the started node, whose chain is
    linked, a peer's block that extends genesis is appended, and then a
    second block that claims number 7 where the height is 2, and whose
    parent is genesis where the head is the first peer block, is appended as
    well.  The stored chain is no longer contiguous nor linked. *)
Lemma C1_unlinked_block_is_appended :
  let n1 := run [GossipBlock peerBlock] node0 in
  let n2 := run [GossipBlock peerBlock; GossipBlock forkBlock] node0 in
  reachable n2
  /\ linked (blocks (state n1)) = true
  /\ last (blocks (state n1)) = Some peerBlock
  /\ numberValue (Block.number forkBlock) <> Z.of_nat (length (blocks (state n1)))
  /\ Block.parentHash forkBlock <> Block.hash peerBlock
  /\ blocks (state n2) = blocks (state n1) ++ [forkBlock]
  /\ linked (blocks (state n2)) = false.
Proof.
  split; [apply reachable_run, reachable_node0|].
  vm_compute. repeat split; congruence.
Qed.

Lemma addBlock_distinct_hashes block s :
  NoDup (Block.hash <$> blocks s) -> NoDup (Block.hash <$> blocks (addBlock block s)).
Proof.
  intros H. destruct (List.find (sameHash (Block.hash block)) (blocks s)) eqn:E.
  - rewrite addBlock_stored; [done|]. apply find_sameHash_stored. by rewrite E.
  - apply find_sameHash_fresh in E. destruct (addBlock_fresh block s E) as [-> _].
    rewrite fmap_app. apply NoDup_app. split; [done|]. split.
    + intros h Hh Hin. apply list_elem_of_fmap in Hh as (b & -> & Hb).
      apply list_elem_of_singleton in Hin. apply E. by exists b.
    + apply NoDup_singleton.
Qed.

(** C1, amended.  [addBlock] appends the block exactly when no stored block
    has its hash, whatever its number and its parentHash are; it leaves the
    state as it is exactly when a stored block has that hash; so the hashes
    of the stored chain stay pairwise distinct. *)
Theorem C1_addBlock_appends_iff_hash_is_new (block : Block.t) (s : State) :
  (blocks (addBlock block s) = blocks s ++ [block] <-> ~ stored (Block.hash block) s)
  /\ (addBlock block s = s <-> stored (Block.hash block) s)
  /\ (NoDup (Block.hash <$> blocks s) ->
      NoDup (Block.hash <$> blocks (addBlock block s))).
Proof.
  assert (Hlen : blocks s <> blocks s ++ [block]).
  { intros E. apply (f_equal length) in E. rewrite length_app in E. simpl in E. lia. }
  split; [|split; [|apply addBlock_distinct_hashes]].
  - destruct (List.find (sameHash (Block.hash block)) (blocks s)) eqn:E.
    + assert (Hs : stored (Block.hash block) s) by (apply find_sameHash_stored; by rewrite E).
      rewrite (addBlock_stored _ _ Hs). by split.
    + apply find_sameHash_fresh in E. destruct (addBlock_fresh block s E) as [Hb _].
      by split.
  - split; [|apply addBlock_stored].
    intros Heq. destruct (List.find (sameHash (Block.hash block)) (blocks s)) eqn:E.
    + apply find_sameHash_stored. by rewrite E.
    + apply find_sameHash_fresh in E. destruct (addBlock_fresh block s E) as [Hb _].
      rewrite Heq in Hb. done.
Qed.

(** ** C2: what [validateBlock] accepts *)

Lemma isNotZero_false q : isNotZero q = false <-> q = QNum 0.
Proof. destruct q as [[| |]|]; simpl; split; congruence. Qed.

Lemma validateBlock_true block s :
  validateBlock block s = true <->
    JS.truthy (Block.hash block) = true
    /\ JS.truthy (Block.parentHash block) = true
    /\ (stored (Block.parentHash block) s \/ Block.number block = QNum 0)
    /\ (exists a, a ∈ AUTHORITIES /\ Block.miner block = Some a).
Proof.
  unfold validateBlock.
  destruct (JS.truthy (Block.hash block)); simpl; [|intuition congruence].
  destruct (JS.truthy (Block.parentHash block)); simpl; [|intuition congruence].
  assert (Hm : bool_decide (Block.miner block ∈ Some <$> AUTHORITIES) = true
               <-> exists a, a ∈ AUTHORITIES /\ Block.miner block = Some a).
  { rewrite bool_decide_eq_true, list_elem_of_fmap.
    split; intros (a & ? & ?); exists a; auto. }
  destruct (bool_decide (is_Some _)) eqn:Hp; simpl.
  - apply bool_decide_eq_true, find_sameHash_stored in Hp.
    destruct (bool_decide (_ ∈ _)); simpl; intuition congruence.
  - apply bool_decide_eq_false in Hp. rewrite find_sameHash_stored in Hp.
    destruct (isNotZero (Block.number block)) eqn:Hz; simpl.
    + assert (Block.number block <> QNum 0).
      { intros E. apply isNotZero_false in E. congruence. }
      intuition congruence.
    + apply isNotZero_false in Hz.
      destruct (bool_decide (_ ∈ _)); simpl; intuition congruence.
Qed.

(** On the claim C2 as written: with the chain genesis, peerBlock, the
    block forkBlock is not genesis and its parent is not the head, and yet
    the validator accepts it and the handler appends it. *)
Lemma C2_parent_need_not_be_head :
  let s := state (run [GossipBlock peerBlock] node0) in
  last (blocks s) = Some peerBlock
  /\ Block.parentHash forkBlock <> Block.hash peerBlock
  /\ Block.number forkBlock <> QNum 0
  /\ validateBlock forkBlock s = true
  /\ blocks (onBlock forkBlock s) = blocks s ++ [forkBlock].
Proof. vm_compute. repeat split; congruence. Qed.

(** C2, amended.  The validator accepts a received block exactly when its
    hash and parentHash are non-empty strings, its parentHash is the hash of
    some block of the stored chain (the head or any other) or its number is
    the number 0, and its miner is one of the authorities.  The handler
    applies [addBlock] to an accepted block and leaves the node, chain and
    height included, as it is for a rejected one. *)
Theorem C2_validateBlock_accepts_iff (block : Block.t) (n : Node) :
  (validateBlock block (state n) = true <->
     JS.truthy (Block.hash block) = true
     /\ JS.truthy (Block.parentHash block) = true
     /\ (stored (Block.parentHash block) (state n) \/ Block.number block = QNum 0)
     /\ (exists a, a ∈ AUTHORITIES /\ Block.miner block = Some a))
  /\ step (GossipBlock block) n =
       (if validateBlock block (state n) then on_state (addBlock block) n else n).
Proof.
  split; [apply validateBlock_true|].
  simpl. unfold onBlock. destruct (validateBlock block (state n)) eqn:E.
  - destruct n. unfold on_state. simpl in *. by rewrite E.
  - apply on_state_id. by rewrite E.
Qed.

(** ** A small program logic for [M] *)

Section Preserves.
Context (P : Node -> Prop).

Lemma preserves_ret {A} (a : A) : preserves P (mret a).
Proof. by intros n H. Qed.

Lemma preserves_throw {A} (e : string) : preserves P (mthrow e : M A).
Proof. by intros n H. Qed.

Lemma preserves_get : preserves P get.
Proof. by intros n H. Qed.

Lemma preserves_bind {A B} (c : M A) (k : A -> M B) :
  preserves P c -> (forall a, preserves P (k a)) -> preserves P (c ≫= k).
Proof.
  intros Hc Hk n Hn. specialize (Hc n Hn).
  unfold mbind, M_bind. destruct (c n) as [a n'|e n']; simpl in *; [|done].
  by apply Hk.
Qed.

Lemma preserves_bind_get {B} (k : State -> M B) :
  (forall n0, P n0 -> preserves P (k (state n0))) -> preserves P (get ≫= k).
Proof. intros H n Hn. unfold mbind, M_bind, get. by apply H. Qed.

Lemma preserves_update (f : State -> State) :
  (forall n, P n -> P (on_state f n)) -> preserves P (update f).
Proof. intros H n Hn. by apply H. Qed.

Lemma preserves_lift (f : Node -> Node) :
  (forall n, P n -> P (f n)) -> preserves P (lift f).
Proof. intros H n Hn. by apply H. Qed.

Lemma preserves_param params i : preserves P (param params i).
Proof. destruct params; [apply preserves_ret | apply preserves_throw]. Qed.
End Preserves.

Ltac preserves_step :=
  first
    [ apply preserves_ret
    | apply preserves_throw
    | apply preserves_get
    | apply preserves_param
    | apply preserves_bind; [|intros ?] ].

(** ** What block production leaves alone *)

Lemma processTransaction_frame bn ts s tx :
  let s' := fst (processTransaction bn ts s tx) in
  blocks s' = blocks s /\ transactions s' = transactions s
  /\ nextBlockNumber s' = nextBlockNumber s
  /\ mining s' = mining s /\ p2pNode s' = p2pNode s.
Proof. unfold processTransaction. by destruct (createsContract tx). Qed.

Lemma processTransactions_frame bn ts txs : forall s,
  let s' := fst (processTransactions bn ts s txs) in
  blocks s' = blocks s /\ transactions s' = transactions s
  /\ nextBlockNumber s' = nextBlockNumber s
  /\ mining s' = mining s /\ p2pNode s' = p2pNode s.
Proof.
  induction txs as [|tx txs IH]; intros s; cbn [processTransactions fst snd]; [done|].
  destruct (processTransaction_frame bn ts s tx) as (? & ? & ? & ? & ?).
  destruct (IH (fst (processTransaction bn ts s tx))) as (? & ? & ? & ? & ?).
  repeat split; congruence.
Qed.

Lemma mineBlockSync_ledger now n :
  let n' := finalNode (mineBlockSync now n) in
  blocks (state n') = blocks (state n) /\ transactions (state n') = transactions (state n)
  /\ mining (state n') = mining (state n) /\ p2pNode (state n') = p2pNode (state n).
Proof.
  unfold mineBlockSync. run_M.
  destruct (bool_decide _); simpl; [done|].
  destruct (blockAt _ _); simpl; [|done].
  destruct (processTransactions_frame (nextBlockNumber (state n)) (seconds now)
              (pendingTransactions (state n)) (state n)) as (? & ? & _ & ? & ?).
  done.
Qed.

Lemma addBlock_flags block s :
  mining (addBlock block s) = mining s /\ p2pNode (addBlock block s) = p2pNode s.
Proof. unfold addBlock. by destruct (List.find _ _). Qed.

(** ** The chain and the index change through [addBlock] only, the flags never *)

Section LedgerInvariant.
Context (Q : list Block.t -> list Tx.t -> bool -> bool -> Prop).
Hypothesis Q_addBlock : forall block s,
  Q (blocks s) (transactions s) (mining s) (p2pNode s) ->
  Q (blocks (addBlock block s)) (transactions (addBlock block s)) (mining s) (p2pNode s).

Let P (n : Node) : Prop :=
  Q (blocks (state n)) (transactions (state n)) (mining (state n)) (p2pNode (state n)).

Lemma ledger_addBlock block n : P n -> P (on_state (addBlock block) n).
Proof.
  unfold P. simpl. intros H. destruct (addBlock_flags block (state n)) as [-> ->].
  by apply Q_addBlock.
Qed.

Lemma ledger_mineBlock now n : P n -> P (mineBlock now n).
Proof.
  unfold mineBlock. intros H.
  assert (H' : P (finalNode (mineBlockSync now n))).
  { unfold P in *. by destruct (mineBlockSync_ledger now n) as (-> & -> & -> & ->). }
  destruct (mineBlockSync now n) as [[newBlock|] n'|e n']; simpl in *; [|done..].
  destruct (p2pNode (state n')); [done|]. by apply ledger_addBlock.
Qed.

Lemma ledger_bumpNonce a n : P n -> P (on_state (bumpNonce a) n).
Proof. unfold P, bumpNonce. simpl. by destruct (accounts (state n) !! a). Qed.

Lemma ledger_createTransaction now p : preserves P (createTransaction now p).
Proof.
  unfold createTransaction. destruct p as [p|]; [|apply preserves_throw].
  apply preserves_bind; [apply preserves_get|intros s].
  destruct (accounts s !! _); [|apply preserves_throw].
  apply preserves_bind; [|intros; apply preserves_ret].
  apply preserves_update. intros n. apply ledger_bumpNonce.
Qed.

Lemma ledger_eth_sendTransaction now params :
  preserves P (eth_sendTransaction now params).
Proof.
  unfold eth_sendTransaction.
  apply preserves_bind; [apply preserves_param|intros p].
  apply preserves_bind; [apply ledger_createTransaction|intros tx].
  apply preserves_bind; [by apply preserves_update|intros _].
  apply preserves_bind; [apply preserves_get|intros s].
  apply preserves_bind; [destruct (p2pNode s); preserves_step|intros _].
  apply preserves_bind; [|intros; apply preserves_ret].
  destruct (negb (mining s)); [by apply preserves_lift | apply preserves_ret].
Qed.

Lemma ledger_eth_sendRawTransaction now params :
  preserves P (eth_sendRawTransaction now params).
Proof.
  unfold eth_sendRawTransaction.
  apply preserves_bind; [apply preserves_param|intros p].
  destruct p as [[rawTx| |]|]; try apply preserves_throw.
  apply preserves_bind; [apply preserves_get|intros s].
  destruct (accounts s !! defaultSender); [|apply preserves_throw].
  apply preserves_bind; [by apply preserves_update|intros _].
  apply preserves_bind;
    [apply preserves_update; intros n; apply ledger_bumpNonce|intros _].
  apply preserves_bind; [|intros _].
  { destruct (negb (mining s)); [|apply preserves_ret].
    apply preserves_lift. intros n. apply ledger_mineBlock. }
  apply preserves_bind; [|intros; apply preserves_ret].
  cbn [Tx.to]. destruct (JS.includes _ _); [by apply preserves_update|apply preserves_ret].
Qed.

Lemma ledger_processMethod now method params :
  preserves P (processMethod now method params).
Proof.
  unfold processMethod, eth_getBlockByNumber, eth_call.
  repeat
    match goal with
    | |- preserves _ (if ?b then _ else _) => destruct b
    | |- preserves _ (match ?x with _ => _ end) => destruct x
    | |- preserves _ (eth_sendTransaction _ _) => apply ledger_eth_sendTransaction
    | |- preserves _ (eth_sendRawTransaction _ _) => apply ledger_eth_sendRawTransaction
    | _ => preserves_step
    end.
Qed.

Lemma ledger_step e n : P n -> P (step e n).
Proof.
  intros H. destruct e as [now body| tx | block | | now | now | i]; simpl.
  - unfold handleRPCRequest. destruct body as [request|]; [|done].
    pose proof (ledger_processMethod now (Request.method request)
                  (Request.params request) n H) as H'.
    by destruct (processMethod _ _ _ n).
  - unfold P, onTransaction. simpl. by destruct (List.find _ _).
  - pose proof (ledger_addBlock block n H) as H'. unfold P, onBlock in *. simpl in *.
  by destruct (validateBlock _ _).
  - done.
  - destruct (timeouts n) eqn:E; [done|]. by apply ledger_mineBlock.
  - destruct (_ && _); [by apply ledger_mineBlock|done].
  - unfold resumeMineBlock. destruct (suspended n !! i) as [newBlock|]; [|done].
    by apply (ledger_addBlock newBlock (set_suspended (delete i (suspended n)) n)).
Qed.

Lemma ledger_reachable :
  (forall now, P (startServer now)) -> forall n, reachable n -> P n.
Proof.
  intros H0 n H. induction H; [apply H0|by apply ledger_step].
Qed.
End LedgerInvariant.

Lemma chainIndexed_addBlock block s : chainIndexed s -> chainIndexed (addBlock block s).
Proof.
  unfold chainIndexed. intros H.
  destruct (List.find (sameHash (Block.hash block)) (blocks s)) eqn:E.
  - rewrite addBlock_stored; [done|]. apply find_sameHash_stored. by rewrite E.
  - apply find_sameHash_fresh in E. destruct (addBlock_fresh block s E) as [-> ->].
    rewrite fmap_app, concat_app, H. simpl. by rewrite app_nil_r.
Qed.

Lemma reachable_chainIndexed n : reachable n -> chainIndexed (state n).
Proof.
  apply (ledger_reachable (fun bs ts _ _ => ts = concat (Block.transactions <$> bs))).
  - intros block s. apply chainIndexed_addBlock.
  - intros now. reflexivity.
Qed.

(** A started node keeps mining, and keeps its transport. *)
Lemma reachable_flags n :
  reachable n -> mining (state n) = true /\ p2pNode (state n) = true.
Proof.
  apply (ledger_reachable (fun _ _ m p => m = true /\ p = true)).
  - by intros block s.
  - intros now. by split.
Qed.

(** In every reachable state the blocks of the chain have pairwise distinct
    hashes. *)
Lemma reachable_distinct_hashes n : reachable n -> NoDup (Block.hash <$> blocks (state n)).
Proof.
  apply (ledger_reachable (fun bs _ _ _ => NoDup (Block.hash <$> bs))).
  - intros block s. apply addBlock_distinct_hashes.
  - intros now. apply NoDup_singleton.
Qed.

(** ** C9: receipts *)

Lemma elem_of_concat {A} (x : A) (ls : list (list A)) :
  x ∈ concat ls <-> exists l, x ∈ l /\ l ∈ ls.
Proof.
  induction ls as [|l ls IH]; simpl.
  - split; [intros H; inversion H | intros (l & _ & H); inversion H].
  - rewrite elem_of_app, IH. split.
    + intros [H|(l' & ? & ?)]; [exists l; split; [done|left] | exists l'; split; [done|by right]].
    + intros (l' & Hx & Hl). inversion Hl; subst; [by left|right; by exists l'].
Qed.

Lemma included_indexed h s :
  chainIndexed s -> included h s <-> exists tx, tx ∈ transactions s /\ Tx.hash tx = h.
Proof.
  unfold chainIndexed, included. intros ->. split.
  - intros (b & tx & Hb & Htx & Hh). exists tx. split; [|done].
    apply elem_of_concat. exists (Block.transactions b). split; [done|].
    apply list_elem_of_fmap. by exists b.
  - intros (tx & Htx & Hh). apply elem_of_concat in Htx as (l & Htx & Hl).
    apply list_elem_of_fmap in Hl as (b & -> & Hb). by exists b, tx.
Qed.

Lemma find_hash_Some h txs tx :
  List.find (hashIs (Some (PStr h))) txs = Some tx -> tx ∈ txs /\ Tx.hash tx = h.
Proof.
  intros H. apply find_some in H as [Hin Hh].
  split; [by apply list_elem_of_In|]. by apply bool_decide_eq_true in Hh.
Qed.

Lemma find_hash_None h txs :
  List.find (hashIs (Some (PStr h))) txs = None -> ~ exists tx, tx ∈ txs /\ Tx.hash tx = h.
Proof.
  intros H (tx & Hin & Hh). apply list_elem_of_In in Hin.
  pose proof (find_none _ _ H tx Hin) as Hf. simpl in Hf.
  apply bool_decide_eq_false in Hf. done.
Qed.

(** C9.  In every reachable state, [eth_getTransactionReceipt] answers
    without an error and without changing the node; the result is a receipt
    for the hash, with status 0x1, exactly when the hash is the hash of a
    transaction of a block of the chain, and it is null exactly when it is
    not (a pending transaction, or a hash never seen). *)
Theorem C9_receipt_iff_included (n : Node) (now : Z) (id : option Z) (h : string)
    (rest : list Param) :
  reachable n ->
  let out :=
    handleRPCRequest now
      (Some (Request.mk id "eth_getTransactionReceipt" (Some (PStr h :: rest)))) n in
  snd out = n
  /\ Response.id (fst out) = id
  /\ Response.error (fst out) = None
  /\ (included h (state n) <->
      exists r, Response.result (fst out) = Some (RReceipt r)
                /\ Receipt.transactionHash r = h /\ Receipt.status r = "0x1"%string)
  /\ (~ included h (state n) <-> Response.result (fst out) = Some RNull).
Proof.
  intros Hr. apply reachable_chainIndexed in Hr.
  pose proof (included_indexed h (state n) Hr) as Hi.
  unfold handleRPCRequest, processMethod.
  cbn [Request.method Request.params String.eqb Ascii.eqb Bool.eqb].
  run_M.
  destruct (List.find _ _) as [tx|] eqn:E; simpl.
  - apply find_hash_Some in E as [Hin Hh].
    assert (Hinc : included h (state n)) by (apply Hi; by exists tx).
    split; [done|]. split; [done|]. split; [done|]. split; split; try done.
    intros _. exists (receiptOf tx). by rewrite <- Hh.
  - apply find_hash_None in E.
    assert (Hinc : ~ included h (state n)) by (intros H; apply E; by apply Hi).
    split; [done|]. split; [done|]. split; [done|]. split; split; try done.
    intros (r & Hres & _). discriminate.
Qed.

Lemma included_lookup h s i j b tx :
  blocks s !! i = Some b -> Block.transactions b !! j = Some tx -> Tx.hash tx = h ->
  included h s.
Proof.
  intros Hb Ht Hh. exists b, tx.
  split; [|split]; [by eapply list_elem_of_lookup_2 | by eapply list_elem_of_lookup_2 | done].
Qed.

Example minedHash_is_included : included minedHash (state minedNode).
Proof.
  assert (H : exists b tx, blocks (state minedNode) !! 1%nat = Some b
                           /\ Block.transactions b !! 0%nat = Some tx
                           /\ Tx.hash tx = minedHash).
  { vm_compute. eexists _, _. split; [reflexivity|]. split; reflexivity. }
  destruct H as (b & tx & Hb & Ht & Hh). by apply (included_lookup _ _ 1%nat 0%nat b tx).
Qed.

(** The theorem at the node that has mined the transfer, for its hash. *)
Lemma C9_witness :
  reachable minedNode
  /\ (let out :=
        handleRPCRequest (t0 + 20000)
          (Some (Request.mk (Some 2) "eth_getTransactionReceipt" (Some [PStr minedHash])))
          minedNode in
      snd out = minedNode
      /\ Response.id (fst out) = Some 2
      /\ Response.error (fst out) = None
      /\ (included minedHash (state minedNode) <->
          exists r, Response.result (fst out) = Some (RReceipt r)
                    /\ Receipt.transactionHash r = minedHash
                    /\ Receipt.status r = "0x1"%string)
      /\ (~ included minedHash (state minedNode) <->
          Response.result (fst out) = Some RNull)).
Proof.
  assert (H : reachable minedNode) by apply reachable_run, reachable_node0.
  split; [exact H|].
  exact (C9_receipt_iff_included minedNode (t0 + 20000) (Some 2) minedHash [] H).
Defined.

(** ** C6: unknown methods *)

Lemma unknown_method_falls_through now method params n :
  method ∉ knownMethods -> processMethod now method params n = Return RNull n.
Proof.
  intros H. unfold processMethod.
  repeat
    match goal with
    | |- context [String.eqb method ?m] =>
        destruct (String.eqb_spec method m) as [->|_];
        [exfalso; apply H; unfold knownMethods; in_list|]
    end.
  reflexivity.
Qed.

(** On the claim C6 as written: the answer to a method the dispatcher does
    not know has a result member, null, and no error member. *)
Lemma C6_unknown_method_gets_no_error :
  ("eth_unknownMethod"%string ∉ knownMethods)
  /\ handleRPCRequest t0 (request "eth_unknownMethod" []) node0
     = (Response.mk (Some 1) (Some RNull) None, node0).
Proof.
  split; [unfold knownMethods; not_in_list|].
  unfold handleRPCRequest, request. cbn [Request.method Request.params Request.id].
  rewrite unknown_method_falls_through; [done|]. unfold knownMethods. not_in_list.
Qed.

(** C6, amended.  A request that names a method outside the dispatcher's
    list is answered with the result null and no error member, and a body
    that cannot be parsed with the structured error -32700 "Parse error";
    in both cases the node (blocks, pool, accounts, contracts, cursor) is
    left as it is and nothing is thrown out of the dispatcher. *)
Theorem C6_unknown_method_returns_null (now : Z) (id : option Z) (method : string)
    (params : option (list Param)) (n : Node) :
  method ∉ knownMethods ->
  handleRPCRequest now (Some (Request.mk id method params)) n
    = (Response.mk id (Some RNull) None, n)
  /\ handleRPCRequest now None n = (Response.mk None None (Some parseError), n).
Proof.
  intros H. split; [|done].
  unfold handleRPCRequest. cbn [Request.method Request.params Request.id].
  by rewrite unknown_method_falls_through.
Qed.

(** The theorem at the started node, for the method eth_unknownMethod. *)
Lemma C6_witness :
  ("eth_unknownMethod"%string ∉ knownMethods)
  /\ (handleRPCRequest t0 (Some (Request.mk (Some 1) "eth_unknownMethod" (Some []))) node0
        = (Response.mk (Some 1) (Some RNull) None, node0)
      /\ handleRPCRequest t0 None node0 = (Response.mk None None (Some parseError), node0)).
Proof.
  assert (H : "eth_unknownMethod"%string ∉ knownMethods)
    by (unfold knownMethods; not_in_list).
  split; [exact H|].
  exact (C6_unknown_method_returns_null t0 (Some 1) "eth_unknownMethod" (Some []) node0 H).
Defined.

(** ** C10: [eth_sendTransaction] from an address without an account *)

(** C10.  When the [from] of an [eth_sendTransaction] request has no
    account, the answer is the structured error -32603 "Internal error" and
    the node is the same value as before: no transaction, nothing in the
    pool, no [mineBlock] scheduled, accounts, blocks and contracts as they
    were. *)
Theorem C10_sendTransaction_unknown_sender (now : Z) (id : option Z) (o : TxParams.t)
    (rest : list Param) (n : Node) :
  accounts (state n) !! JS.key (TxParams.from o) = None ->
  handleRPCRequest now
    (Some (Request.mk id "eth_sendTransaction" (Some (PObj o :: rest)))) n
  = (Response.mk id None
       (Some (internalError "Cannot read properties of undefined (reading 'nonce')")), n).
Proof.
  intros H. unfold handleRPCRequest, processMethod.
  cbn [Request.method Request.params Request.id String.eqb Ascii.eqb Bool.eqb].
  unfold eth_sendTransaction, createTransaction. run_M. by rewrite H.
Qed.

(** The theorem at the started node, for a sender without an account. *)
Lemma C10_witness :
  accounts (state node0) !! JS.key (TxParams.from strangerParams) = None
  /\ handleRPCRequest t0
       (Some (Request.mk (Some 1) "eth_sendTransaction" (Some [PObj strangerParams]))) node0
     = (Response.mk (Some 1) None
          (Some (internalError "Cannot read properties of undefined (reading 'nonce')")), node0).
Proof.
  assert (H : accounts (state node0) !! JS.key (TxParams.from strangerParams) = None)
    by (vm_compute; reflexivity).
  split; [exact H|].
  exact (C10_sendTransaction_unknown_sender t0 (Some 1) strangerParams [] node0 H).
Defined.

(** ** Accounts under block production *)

Lemma processTransaction_accounts bn ts s tx :
  accounts (fst (processTransaction bn ts s tx)) = transfer tx (accounts s).
Proof. unfold processTransaction. by destruct (createsContract tx). Qed.

Lemma processTransactions_accounts bn ts txs : forall s,
  accounts (fst (processTransactions bn ts s txs)) = settle txs (accounts s).
Proof.
  induction txs as [|tx txs IH]; intros s; cbn [processTransactions fst snd]; [done|].
  rewrite IH, processTransaction_accounts. done.
Qed.

Lemma mineBlockSync_accounts now n :
  let accs' := accounts (state (finalNode (mineBlockSync now n))) in
  accs' = accounts (state n)
  \/ accs' = settle (pendingTransactions (state n)) (accounts (state n)).
Proof.
  unfold mineBlockSync. run_M.
  destruct (bool_decide _); simpl; [by left|].
  destruct (blockAt _ _); simpl; [|by left].
  right. apply processTransactions_accounts.
Qed.

Lemma mineBlock_accounts now n :
  let accs' := accounts (state (mineBlock now n)) in
  accs' = accounts (state n)
  \/ accs' = settle (pendingTransactions (state n)) (accounts (state n)).
Proof.
  pose proof (mineBlockSync_accounts now n) as H. unfold mineBlock.
  destruct (mineBlockSync now n) as [[newBlock|] n'|e n']; simpl in *; try done.
  destruct (p2pNode (state n')); simpl; [done|]. by rewrite addBlock_accounts.
Qed.

(** *** Nonces *)

Lemma sameNonces_refl accs : sameNonces accs accs.
Proof. intros k a H. by exists a. Qed.

Lemma sameNonces_trans a b c : sameNonces a b -> sameNonces b c -> sameNonces a c.
Proof.
  intros Hab Hbc k x Hx. destruct (Hab k x Hx) as (y & Hy & Ey).
  destruct (Hbc k y Hy) as (z & Hz & Ez). exists z. split; [done|congruence].
Qed.

Lemma sameNonces_insert accs k x :
  (forall a, accs !! k = Some a -> Account.nonce x = Account.nonce a) ->
  sameNonces accs (<[k := x]> accs).
Proof.
  intros H j a Hj. destruct (decide (k = j)) as [->|Hne].
  - exists x. rewrite lookup_insert_eq. split; [done|by apply H].
  - exists a. by rewrite lookup_insert_ne.
Qed.

Lemma transfer_sameNonces tx accs : sameNonces accs (transfer tx accs).
Proof.
  unfold transfer. destruct (_ && _); [|apply sameNonces_refl].
  eapply sameNonces_trans.
  - instantiate (1 := match accs !! JS.key (Tx.from tx) with
                      | Some a => <[JS.key (Tx.from tx) := debit (Tx.value tx) a]> accs
                      | None => accs
                      end).
    destruct (accs !! JS.key (Tx.from tx)) eqn:E; [|apply sameNonces_refl].
    apply sameNonces_insert. intros a' Ha'. rewrite E in Ha'. by injection Ha' as <-.
  - destruct (_ !! JS.key (Tx.to tx)) eqn:E; apply sameNonces_insert;
      intros a' Ha'; rewrite E in Ha'; [by injection Ha' as <-|done].
Qed.

Lemma settle_sameNonces txs : forall accs, sameNonces accs (settle txs accs).
Proof.
  induction txs as [|tx txs IH]; intros accs; simpl; [apply sameNonces_refl|].
  eapply sameNonces_trans; [apply transfer_sameNonces|apply IH].
Qed.

Lemma mineBlock_sameNonces now n :
  sameNonces (accounts (state n)) (accounts (state (mineBlock now n))).
Proof.
  destruct (mineBlock_accounts now n) as [-> | ->];
    [apply sameNonces_refl | apply settle_sameNonces].
Qed.

(** *** Balances *)

Lemma nonnegative_insert accs k x :
  nonnegative accs -> 0 <= Account.balance x -> nonnegative (<[k := x]> accs).
Proof.
  intros H Hx j a Hj. destruct (decide (k = j)) as [->|Hne].
  - rewrite lookup_insert_eq in Hj. by injection Hj as <-.
  - rewrite lookup_insert_ne in Hj by done. by eapply H.
Qed.

Lemma transfer_nonnegative tx accs :
  nonnegative accs -> covered accs tx = true -> nonnegative (transfer tx accs).
Proof.
  unfold transfer, covered. intros H Hc.
  destruct (JS.truthy (Tx.to tx) && (0 <? Tx.value tx)) eqn:Hcond; [|done].
  apply andb_true_iff in Hcond as [_ Hv]. apply Z.ltb_lt in Hv.
  assert (H1 : nonnegative
                 match accs !! JS.key (Tx.from tx) with
                 | Some a => <[JS.key (Tx.from tx) := debit (Tx.value tx) a]> accs
                 | None => accs
                 end).
  { destruct (accs !! JS.key (Tx.from tx)) as [a|] eqn:E; [|done].
    apply nonnegative_insert; [done|]. apply Z.leb_le in Hc. simpl. lia. }
  destruct (_ !! JS.key (Tx.to tx)) as [a|] eqn:E; apply nonnegative_insert; try done.
  - apply H1 in E. simpl. lia.
  - simpl. lia.
Qed.

Lemma settle_nonnegative txs : forall accs,
  nonnegative accs -> funded accs txs = true -> nonnegative (settle txs accs).
Proof.
  induction txs as [|tx txs IH]; intros accs H Hf; simpl in *; [done|].
  apply andb_true_iff in Hf as [Hc Hf].
  apply IH; [by apply transfer_nonnegative|done].
Qed.

Lemma mineBlock_nonnegative now n :
  nonnegative (accounts (state n)) ->
  funded (accounts (state n)) (pendingTransactions (state n)) = true ->
  nonnegative (accounts (state (mineBlock now n))).
Proof.
  intros H Hf. destruct (mineBlock_accounts now n) as [-> | ->]; [done|].
  by apply settle_nonnegative.
Qed.

(** ** Accounts under RPC requests, on a node that is mining *)

Section RpcAccounts.
Context (R : gmap string Account.t -> Prop).
Hypothesis R_bump : forall accs k a,
  accs !! k = Some a -> R accs ->
  R (<[k := Account.mk (Account.balance a) (Account.nonce a + 1)]> accs).

Let P (n : Node) : Prop := mining (state n) = true /\ R (accounts (state n)).

Lemma rpc_bumpNonce k n : P n -> P (on_state (bumpNonce k) n).
Proof.
  unfold P, bumpNonce. simpl. intros [Hm HR].
  destruct (accounts (state n) !! k) eqn:E; simpl; [|done].
  split; [done|]. by apply R_bump.
Qed.

Lemma rpc_createTransaction now p : preserves P (createTransaction now p).
Proof.
  unfold createTransaction. destruct p as [p|]; [|apply preserves_throw].
  apply preserves_bind; [apply preserves_get|intros s].
  destruct (accounts s !! _); [|apply preserves_throw].
  apply preserves_bind; [|intros; apply preserves_ret].
  apply preserves_update. intros n. apply rpc_bumpNonce.
Qed.

Lemma rpc_eth_sendTransaction now params : preserves P (eth_sendTransaction now params).
Proof.
  unfold eth_sendTransaction.
  apply preserves_bind; [apply preserves_param|intros p].
  apply preserves_bind; [apply rpc_createTransaction|intros tx].
  apply preserves_bind; [by apply preserves_update|intros _].
  apply preserves_bind; [apply preserves_get|intros s].
  apply preserves_bind; [destruct (p2pNode s); preserves_step|intros _].
  apply preserves_bind; [|intros; apply preserves_ret].
  destruct (negb (mining s)); [by apply preserves_lift | apply preserves_ret].
Qed.

Lemma rpc_eth_sendRawTransaction now params :
  preserves P (eth_sendRawTransaction now params).
Proof.
  unfold eth_sendRawTransaction.
  apply preserves_bind; [apply preserves_param|intros p].
  destruct p as [[rawTx| |]|]; try apply preserves_throw.
  apply preserves_bind_get. intros n0 [Hm _]. rewrite Hm.
  destruct (accounts (state n0) !! defaultSender); [|apply preserves_throw].
  apply preserves_bind; [by apply preserves_update|intros _].
  apply preserves_bind;
    [apply preserves_update; intros n; apply rpc_bumpNonce|intros _].
  apply preserves_bind; [apply preserves_ret|intros _].
  apply preserves_bind; [|intros; apply preserves_ret].
  cbn [Tx.to]. destruct (JS.includes _ _); [by apply preserves_update|apply preserves_ret].
Qed.

Lemma rpc_processMethod now method params :
  preserves P (processMethod now method params).
Proof.
  unfold processMethod, eth_getBlockByNumber, eth_call.
  repeat
    match goal with
    | |- preserves _ (if ?b then _ else _) => destruct b
    | |- preserves _ (match ?x with _ => _ end) => destruct x
    | |- preserves _ (eth_sendTransaction _ _) => apply rpc_eth_sendTransaction
    | |- preserves _ (eth_sendRawTransaction _ _) => apply rpc_eth_sendRawTransaction
    | _ => preserves_step
    end.
Qed.

Lemma rpc_step now body n : P n -> P (step (Rpc now body) n).
Proof.
  intros H. simpl. unfold handleRPCRequest. destruct body as [request|]; [|done].
  pose proof (rpc_processMethod now (Request.method request)
                (Request.params request) n H) as H'.
  by destruct (processMethod _ _ _ n).
Qed.
End RpcAccounts.

Lemma nonnegative_bump accs k a :
  accs !! k = Some a -> nonnegative accs ->
  nonnegative (<[k := Account.mk (Account.balance a) (Account.nonce a + 1)]> accs).
Proof. intros Hk H. apply nonnegative_insert; [done|]. simpl. by eapply H. Qed.

Lemma nonnegative_by_evaluation accs :
  bool_decide (map_Forall (fun _ a => 0 <= Account.balance a) accs) = true ->
  nonnegative accs.
Proof. intros H. by apply bool_decide_eq_true in H. Qed.

Lemma step_accounts_no_production e n :
  match e with
  | GossipTransaction _ | GossipBlock _ | GossipConsensus | Broadcast _ => True
  | _ => False
  end ->
  accounts (state (step e n)) = accounts (state n).
Proof.
  destruct e as [now body| tx | block | | now | now | i]; simpl; try done; intros _.
  - unfold onTransaction. by destruct (List.find _ _).
  - unfold onBlock. destruct (validateBlock _ _); [apply addBlock_accounts|done].
  - unfold resumeMineBlock. destruct (suspended n !! i); [|done]. apply addBlock_accounts.
Qed.

(** ** C3: when the nonce moves *)

(** On the claim C3 as written: the producer's nonce is 0 on the started
    node; after [eth_sendTransaction] the transaction sits in the pool, no
    block has been added, and the nonce is 1 already; after the block with
    the transaction has been produced and added, the nonce is still 1. *)
Lemma C3_nonce_moves_at_submission :
  Account.nonce <$> accounts (state node0) !! producer = Some 0
  /\ (exists tx, pendingTransactions (state submittedNode) = [tx]
                 /\ Tx.from tx = Some producer)
  /\ blocks (state submittedNode) = blocks (state node0)
  /\ Account.nonce <$> accounts (state submittedNode) !! producer = Some 1
  /\ length (blocks (state minedNode)) = 2%nat
  /\ pendingTransactions (state minedNode) = []
  /\ Account.nonce <$> accounts (state minedNode) !! producer = Some 1.
Proof.
  split; [vm_compute; reflexivity|].
  split; [vm_compute; eexists; split; reflexivity|].
  conjuncts; vm_compute; reflexivity.
Qed.

(** C3, amended.  The nonce of the sender is incremented exactly once for a
    transaction made by [eth_sendTransaction], and this happens when the
    transaction is created, before it enters the pool and before any block:
    the request appends one transaction carrying the old nonce to the pool,
    adds no block, and leaves the accounts as they were but for the sender's
    nonce, which is one more.  Every event that is not an RPC request (a
    timer that runs [mineBlock], the end of a broadcast that runs
    [addBlock], a gossiped transaction or block) leaves each existing
    account with the nonce it had. *)
Theorem C3_nonce_is_incremented_at_submission
    (now : Z) (id : option Z) (o : TxParams.t) (rest : list Param) (n : Node)
    (a : Account.t) (e : Event) (m : Node) :
  accounts (state n) !! JS.key (TxParams.from o) = Some a ->
  isRpc e = false ->
  let n' :=
    step (Rpc now (Some (Request.mk id "eth_sendTransaction" (Some (PObj o :: rest))))) n in
  (exists tx, pendingTransactions (state n') = pendingTransactions (state n) ++ [tx]
              /\ Tx.from tx = TxParams.from o
              /\ Tx.nonce tx = hex (Account.nonce a))
  /\ blocks (state n') = blocks (state n)
  /\ accounts (state n') =
       <[JS.key (TxParams.from o) := Account.mk (Account.balance a) (Account.nonce a + 1)]>
         (accounts (state n))
  /\ sameNonces (accounts (state m)) (accounts (state (step e m))).
Proof.
  intros Ha He.
  assert (Hs : state (step (Rpc now (Some (Request.mk id "eth_sendTransaction"
                                             (Some (PObj o :: rest))))) n)
               = push (transactionObject now (PObj o) (Account.nonce a))
                      (bumpNonce (JS.key (TxParams.from o)) (state n))).
  { cbn [step]. unfold handleRPCRequest, processMethod.
    cbn [Request.method Request.params Request.id String.eqb Ascii.eqb Bool.eqb].
    unfold eth_sendTransaction, createTransaction. run_M. rewrite Ha. simpl.
    destruct (p2pNode _); simpl; [|destruct (negb _)]; reflexivity. }
  cbn zeta. rewrite Hs. unfold bumpNonce. rewrite Ha.
  split; [|split; [|split]]; try reflexivity.
  - by eexists.
  - destruct e as [now' body| tx | block | | now' | now' | i]; try discriminate.
    + rewrite step_accounts_no_production by done. apply sameNonces_refl.
    + rewrite step_accounts_no_production by done. apply sameNonces_refl.
    + rewrite step_accounts_no_production by done. apply sameNonces_refl.
    + simpl. destruct (timeouts m); [apply sameNonces_refl|].
      apply (mineBlock_sameNonces now' (set_timeouts _ m)).
    + simpl. destruct (_ && _); [apply mineBlock_sameNonces|apply sameNonces_refl].
    + rewrite step_accounts_no_production by done. apply sameNonces_refl.
Qed.

(** The theorem at the started node, for a transfer of 5 wei, and at the
    node that holds it in the pool, for the interval. *)
Lemma C3_witness :
  accounts (state node0) !! JS.key (TxParams.from (transferParams 5))
    = Some (Account.mk thousandEther 0)
  /\ isRpc (Interval (t0 + 10000)) = false
  /\ (let n' :=
        step (Rpc (t0 + 500)
                (Some (Request.mk (Some 1) "eth_sendTransaction"
                         (Some [PObj (transferParams 5)])))) node0 in
      (exists tx, pendingTransactions (state n') = pendingTransactions (state node0) ++ [tx]
                  /\ Tx.from tx = TxParams.from (transferParams 5)
                  /\ Tx.nonce tx = hex (Account.nonce (Account.mk thousandEther 0)))
      /\ blocks (state n') = blocks (state node0)
      /\ accounts (state n') =
           <[JS.key (TxParams.from (transferParams 5)) :=
               Account.mk (Account.balance (Account.mk thousandEther 0))
                          (Account.nonce (Account.mk thousandEther 0) + 1)]>
             (accounts (state node0))
      /\ sameNonces (accounts (state submittedNode))
                    (accounts (state (step (Interval (t0 + 10000)) submittedNode)))).
Proof.
  assert (H1 : accounts (state node0) !! JS.key (TxParams.from (transferParams 5))
               = Some (Account.mk thousandEther 0)) by (vm_compute; reflexivity).
  assert (H2 : isRpc (Interval (t0 + 10000)) = false) by reflexivity.
  split; [exact H1|]. split; [exact H2|].
  exact (C3_nonce_is_incremented_at_submission (t0 + 500) (Some 1) (transferParams 5) []
           node0 (Account.mk thousandEther 0) (Interval (t0 + 10000)) submittedNode H1 H2).
Defined.

(** ** C7: balances *)

(** On the claim C7 as written: every balance of the started node is
    nonnegative; a client sends a transfer of 2000 ether from the producer,
    who has 1000; the interval fires; the producer's balance is then
    -1000 ether, in a reachable state. *)
Lemma C7_balance_goes_below_zero :
  reachable overdraftNode
  /\ nonnegative (accounts (state node0))
  /\ Account.balance <$> accounts (state overdraftNode) !! producer = Some (- thousandEther)
  /\ - thousandEther < 0.
Proof.
  split; [apply reachable_run, reachable_node0|].
  split; [apply nonnegative_by_evaluation; vm_compute; reflexivity|].
  split; [vm_compute; reflexivity|]. unfold thousandEther. lia.
Qed.

(** C7, amended.  Balances are signed integers and [mineBlock] debits the
    sender without comparing the value with the balance.  In a reachable
    state whose balances are nonnegative, the next event (an RPC request, a
    gossip delivery, a timer, the end of a broadcast) leaves every balance
    nonnegative provided each transfer of the pool, taken in pool order, has
    a value that does not exceed the balance its sender has when its turn
    comes. *)
Theorem C7_funded_pool_keeps_balances_nonnegative (n : Node) (e : Event) :
  reachable n ->
  nonnegative (accounts (state n)) ->
  funded (accounts (state n)) (pendingTransactions (state n)) = true ->
  nonnegative (accounts (state (step e n))).
Proof.
  intros Hr Hn Hf.
  destruct e as [now body| tx | block | | now | now | i].
  - apply reachable_flags in Hr as [Hm _].
    apply (rpc_step nonnegative nonnegative_bump now body n). by split.
  - by rewrite step_accounts_no_production.
  - by rewrite step_accounts_no_production.
  - by rewrite step_accounts_no_production.
  - simpl. destruct (timeouts n); [done|].
    by apply (mineBlock_nonnegative now (set_timeouts _ n)).
  - simpl. destruct (_ && _); [by apply mineBlock_nonnegative|done].
  - by rewrite step_accounts_no_production.
Qed.

(** The theorem at the node that holds a transfer of 5 wei in the pool, for
    the interval. *)
Lemma C7_witness :
  reachable submittedNode
  /\ nonnegative (accounts (state submittedNode))
  /\ funded (accounts (state submittedNode)) (pendingTransactions (state submittedNode)) = true
  /\ nonnegative (accounts (state (step (Interval (t0 + 10000)) submittedNode))).
Proof.
  assert (H1 : reachable submittedNode) by apply reachable_run, reachable_node0.
  assert (H2 : nonnegative (accounts (state submittedNode)))
    by (apply nonnegative_by_evaluation; vm_compute; reflexivity).
  assert (H3 : funded (accounts (state submittedNode))
                 (pendingTransactions (state submittedNode)) = true)
    by (vm_compute; reflexivity).
  split; [exact H1|]. split; [exact H2|]. split; [exact H3|].
  exact (C7_funded_pool_keeps_balances_nonnegative submittedNode (Interval (t0 + 10000))
           H1 H2 H3).
Defined.

(** ** The rotation *)

Section RoundRobin.
Local Open Scope nat_scope.
Context (authorities : list string).
Let K := length authorities.
Hypothesis nonempty : 0 < K.

Lemma next_cursor c : c < K -> (c + 1) mod K = if c + 1 =? K then 0 else c + 1.
Proof.
  intros H. destruct (Nat.eqb_spec (c + 1) K) as [->|Hne].
  - apply Nat.Div0.mod_same.
  - apply Nat.mod_small. lia.
Qed.

Lemma next_cursor_lt c : (c + 1) mod K < K.
Proof. apply Nat.mod_upper_bound. lia. Qed.

(** Round-robin order, with wrap-around and without skipping: the i-th
    selection is the authority at position (c + i) mod K. *)
Lemma selections_lookup count : forall c i,
  c < K -> i < count ->
  selections authorities count c !! i = Some (authorities !! ((c + i) mod K)).
Proof.
  induction count as [|count IH]; intros c i Hc Hi; [lia|].
  cbn [selections selectAuthority fst snd]. fold K.
  destruct i as [|i]; simpl.
  - by rewrite Nat.add_0_r, Nat.mod_small.
  - rewrite IH by (try apply next_cursor_lt; lia).
    rewrite Nat.Div0.add_mod_idemp_l. do 3 f_equal. lia.
Qed.

Lemma selections_length count : forall c, length (selections authorities count c) = count.
Proof. induction count as [|count IH]; intros c; simpl; [done|by rewrite IH]. Qed.

Lemma occurrences_hits a j count : forall c,
  NoDup authorities -> authorities !! j = Some a -> c < K ->
  occurrences a (selections authorities count c) = hits K j count c.
Proof.
  intros c Hnd Hj. revert c.
  induction count as [|count IH]; intros c Hc; [done|].
  cbn [selections selectAuthority fst snd hits]. fold K.
  unfold occurrences in *. cbn [List.filter].
  destruct (Nat.eqb_spec c j) as [->|Hne].
  - rewrite Hj, bool_decide_eq_true_2 by done. simpl.
    by rewrite IH by apply next_cursor_lt.
  - rewrite bool_decide_eq_false_2.
    + by rewrite IH by apply next_cursor_lt.
    + intros E. apply Hne. by eapply NoDup_lookup.
Qed.

Lemma div_mod_succ n :
  (S n / K = n / K /\ S n mod K = S (n mod K) /\ S (n mod K) < K)
  \/ (S n / K = S (n / K) /\ S n mod K = 0 /\ S (n mod K) = K).
Proof.
  pose proof (Nat.div_mod_eq n K) as E.
  pose proof (Nat.mod_upper_bound n K ltac:(lia)) as Hr.
  destruct (Nat.eq_dec (S (n mod K)) K) as [Heq|Hne].
  - right. split; [|split; [|done]].
    + symmetry. apply (Nat.div_unique _ _ _ 0); lia.
    + symmetry. apply (Nat.mod_unique _ _ (S (n / K))); lia.
  - left. split; [|split; [|lia]].
    + symmetry. apply (Nat.div_unique _ _ _ (S (n mod K))); lia.
    + symmetry. apply (Nat.mod_unique _ _ (n / K)); lia.
Qed.

Lemma hits_formula j count : forall c,
  j < K -> c < K ->
  hits K j count c = count / K + (if ahead K j c <? count mod K then 1 else 0).
Proof.
  induction count as [|count IH]; intros c Hj Hc.
  - simpl. rewrite Nat.Div0.div_0_l, Nat.Div0.mod_0_l. done.
  - cbn [hits]. rewrite IH by (try apply next_cursor_lt; done).
    rewrite next_cursor by done. unfold ahead.
    destruct (div_mod_succ count) as [(-> & -> & Hlt)|(-> & -> & Heq)];
      repeat
        match goal with
        | |- context [Nat.eqb ?x ?y] => destruct (Nat.eqb_spec x y)
        | |- context [Nat.leb ?x ?y] => destruct (Nat.leb_spec x y)
        | |- context [Nat.ltb ?x ?y] => destruct (Nat.ltb_spec x y)
        end; lia.
Qed.

(** Among [count] successive selections every authority is returned
    count / K times, or once more. *)
Lemma occurrences_bounds a count c :
  NoDup authorities -> a ∈ authorities -> c < K ->
  count / K <= occurrences a (selections authorities count c) <= count / K + 1.
Proof.
  intros Hnd Ha Hc. apply list_elem_of_lookup in Ha as [j Hj].
  assert (j < K) by (by apply lookup_lt_Some in Hj).
  rewrite (occurrences_hits a j) by done. rewrite hits_formula by done.
  destruct (_ <? _); lia.
Qed.
End RoundRobin.

Lemma AUTHORITIES_NoDup : NoDup AUTHORITIES.
Proof.
  unfold AUTHORITIES.
  repeat (apply NoDup_cons; split; [not_in_list|]). apply NoDup_nil_2.
Qed.

(** X1.  The rotation over the four authorities of the node: from a cursor
    [c], the selection number [i] of [count] successive selections returns
    the authority at position [(c + i) mod 4], in list order with
    wrap-around and without skipping, and every authority is returned
    [count / 4] times or once more. *)
Lemma AUTHORITIES_round_robin a count c :
  a ∈ AUTHORITIES -> (c < 4)%nat ->
  (forall i, (i < count)%nat ->
     selections AUTHORITIES count c !! i = Some (AUTHORITIES !! ((c + i) mod 4)%nat))
  /\ (count / 4 <= occurrences a (selections AUTHORITIES count c) <= count / 4 + 1)%nat.
Proof.
  intros Ha Hc. split.
  - intros i Hi. apply (selections_lookup AUTHORITIES); simpl; lia.
  - apply (occurrences_bounds AUTHORITIES); [simpl; lia|apply AUTHORITIES_NoDup|done..].
Qed.

(** ** The cursor *)

Lemma cursor_unchanged_outside_production e n :
  match e with
  | GossipTransaction _ | GossipBlock _ | GossipConsensus | Broadcast _ => True
  | _ => False
  end ->
  currentAuthorityIndex (step e n) = currentAuthorityIndex n.
Proof.
  destruct e as [now body| tx | block | | now | now | i]; simpl; try done; intros _.
  unfold resumeMineBlock. by destruct (suspended n !! i).
Qed.

Lemma mineBlock_empty_pool now n : pendingTransactions (state n) = [] -> mineBlock now n = n.
Proof.
  intros H. unfold mineBlock, mineBlockSync. run_M.
  by rewrite bool_decide_eq_true_2.
Qed.

Lemma mineBlockSync_produces now n newBlock n' :
  mineBlockSync now n = Return (Some newBlock) n' ->
  currentAuthorityIndex n' = ((currentAuthorityIndex n + 1) mod 4)%nat
  /\ Block.miner newBlock = AUTHORITIES !! currentAuthorityIndex n.
Proof.
  unfold mineBlockSync. run_M.
  destruct (bool_decide _); [discriminate|].
  destruct (blockAt _ _); [|discriminate].
  intros H. injection H as <- <-. done.
Qed.

(** X2.  An attempt that finds no block at [nextBlockNumber - 1] throws with the
    cursor already moved and with the state as it was. *)
Lemma mineBlock_without_parent now n :
  pendingTransactions (state n) <> [] ->
  blockAt (nextBlockNumber (state n) - 1) (state n) = None ->
  mineBlock now n
  = set_currentAuthorityIndex ((currentAuthorityIndex n + 1) mod 4)%nat n.
Proof.
  intros Hp Hb. unfold mineBlock, mineBlockSync. run_M.
  rewrite bool_decide_eq_false_2 by done. by rewrite Hb.
Qed.

(** ** C4: the cursor and the blocks produced *)

(** C4, at the failing input.  The started node receives a transfer, the
    interval fires and the broadcast settles: one block has been produced,
    the cursor is 1, and [nextBlockNumber] is 17, because [addBlock] adds 1
    to the string '0x1'.  A second transfer arrives and the interval fires
    again: [state.blocks[16]] is undefined, [mineBlock] throws, no block is
    produced or suspended, the transfer stays in the pool, and the cursor
    is 2. *)
Theorem C4_cursor_advances_without_a_block :
  reachable secondAttemptNode
  /\ length (blocks (state minedNode)) = 2%nat
  /\ nextBlockNumber (state minedNode) = 17
  /\ currentAuthorityIndex minedNode = 1%nat
  /\ blocks (state secondAttemptNode) = blocks (state minedNode)
  /\ suspended secondAttemptNode = []
  /\ length (pendingTransactions (state secondAttemptNode)) = 1%nat
  /\ currentAuthorityIndex secondAttemptNode = 2%nat.
Proof.
  split; [do 2 apply reachable_run; apply reachable_node0|].
  conjuncts; vm_compute; reflexivity.
Qed.

(** ** C5: duplicates in the pool *)

(** The gossip handler looks the hash up before it pushes. *)
Lemma onTransaction_known_hash tx s :
  (exists t, t ∈ pendingTransactions s /\ Tx.hash t = Tx.hash tx) ->
  onTransaction tx s = s.
Proof.
  intros (t & Hin & Hh). unfold onTransaction.
  destruct (List.find _ _) eqn:E; [done|].
  apply list_elem_of_In in Hin. pose proof (find_none _ _ E t Hin) as Hf.
  simpl in Hf. by apply bool_decide_eq_false in Hf.
Qed.

Lemma onTransaction_idempotent tx s :
  onTransaction tx (onTransaction tx s) = onTransaction tx s.
Proof.
  apply onTransaction_known_hash. unfold onTransaction.
  destruct (List.find _ _) as [t|] eqn:E.
  - apply find_some in E as [Hin Hh]. exists t.
    split; [by apply list_elem_of_In|]. by apply bool_decide_eq_true in Hh.
  - exists tx. split; [|done]. simpl. apply elem_of_app. right. apply list_elem_of_here.
Qed.

(** [eth_sendRawTransaction] pushes without looking: on a node that is
    mining and has the default sender, the pool grows by one transaction
    whose hash is the digest of the payload, whatever the pool holds. *)
Lemma sendRawTransaction_pushes now id rawTx rest n a :
  mining (state n) = true ->
  accounts (state n) !! defaultSender = Some a ->
  exists tx,
    pendingTransactions
      (state (step (Rpc now (Some (Request.mk id "eth_sendRawTransaction"
                                     (Some (PStr rawTx :: rest))))) n))
    = pendingTransactions (state n) ++ [tx]
    /\ Tx.hash tx = "0x" +:+ sha256 rawTx.
Proof.
  intros Hm Ha. cbn [step]. unfold handleRPCRequest, processMethod.
  cbn [Request.method Request.params Request.id String.eqb Ascii.eqb Bool.eqb].
  unfold eth_sendRawTransaction. run_M. rewrite Ha, Hm. simpl.
  destruct (JS.includes _ _); simpl; unfold bumpNonce; simpl; rewrite Ha; simpl;
    by eexists.
Qed.

(** C5, at the failing input.  The same raw transaction is sent twice to
    the started node through [eth_sendRawTransaction]: the pool then holds
    two entries with the same hash. *)
Theorem C5_sendRawTransaction_keeps_duplicates :
  reachable resubmittedNode
  /\ Response.error
       (fst (handleRPCRequest (t0 + 900) (request "eth_sendRawTransaction" [PStr rawPayload])
               (run [sendRaw (t0 + 500)] node0))) = None
  /\ exists t1 t2,
       pendingTransactions (state resubmittedNode) = [t1; t2]
       /\ Tx.hash t1 = Tx.hash t2.
Proof.
  split; [apply reachable_run, reachable_node0|].
  split; [vm_compute; reflexivity|].
  vm_compute. eexists _, _. split; reflexivity.
Qed.

(** ** The number of a mined block, read as a number *)

(** ['0x' + n.toString(16) + '1'] is the hexadecimal literal of 16 n + 1. *)
Example plusOne_of_hex_strings :
  JS.parseInt16 (quantityText (QHex 1) +:+ "1") = Some (plusOne (QHex 1))
  /\ JS.parseInt16 (quantityText (QHex 255) +:+ "1") = Some (plusOne (QHex 255))
  /\ JS.parseInt16 (quantityText (QHex 4096) +:+ "1") = Some (plusOne (QHex 4096))
  /\ plusOne (QHex 1) = 17.
Proof. vm_compute. auto. Qed.

(** * Further properties of the node *)

(** ** An induction principle for the event loop *)

(** What is kept by the eight ways an event touches the node is kept by
    every event, and holds of every reachable node once it holds of the
    started one. *)
Section EventInvariant.
Context (P : Node -> Prop).
Hypothesis P_push : forall tx n, P n -> P (on_state (push tx) n).
Hypothesis P_bumpNonce : forall a n, P n -> P (on_state (bumpNonce a) n).
Hypothesis P_contract : forall k c n,
  P n -> P (on_state (fun s => set_contracts (<[k := c]> (contracts s)) s) n).
Hypothesis P_timeouts : forall k n, P n -> P (set_timeouts k n).
Hypothesis P_mineBlock : forall now n, P n -> P (mineBlock now n).
Hypothesis P_onTransaction : forall tx n, P n -> P (on_state (onTransaction tx) n).
Hypothesis P_onBlock : forall block n, P n -> P (on_state (onBlock block) n).
Hypothesis P_resume : forall i n, P n -> P (resumeMineBlock i n).

Lemma invariant_createTransaction now p : preserves P (createTransaction now p).
Proof.
  unfold createTransaction. destruct p as [p|]; [|apply preserves_throw].
  apply preserves_bind; [apply preserves_get|intros s].
  destruct (accounts s !! _); [|apply preserves_throw].
  apply preserves_bind; [|intros; apply preserves_ret].
  apply preserves_update. intros n. apply P_bumpNonce.
Qed.

Lemma invariant_eth_sendTransaction now params :
  preserves P (eth_sendTransaction now params).
Proof.
  unfold eth_sendTransaction.
  apply preserves_bind; [apply preserves_param|intros p].
  apply preserves_bind; [apply invariant_createTransaction|intros tx].
  apply preserves_bind; [apply preserves_update; intros n; apply P_push|intros _].
  apply preserves_bind; [apply preserves_get|intros s].
  apply preserves_bind; [destruct (p2pNode s); preserves_step|intros _].
  apply preserves_bind; [|intros; apply preserves_ret].
  destruct (negb (mining s)); [|apply preserves_ret].
  apply preserves_lift. intros n. apply P_timeouts.
Qed.

Lemma invariant_eth_sendRawTransaction now params :
  preserves P (eth_sendRawTransaction now params).
Proof.
  unfold eth_sendRawTransaction.
  apply preserves_bind; [apply preserves_param|intros p].
  destruct p as [[rawTx| |]|]; try apply preserves_throw.
  apply preserves_bind; [apply preserves_get|intros s].
  destruct (accounts s !! defaultSender); [|apply preserves_throw].
  apply preserves_bind; [apply preserves_update; intros n; apply P_push|intros _].
  apply preserves_bind; [apply preserves_update; intros n; apply P_bumpNonce|intros _].
  apply preserves_bind; [|intros _].
  { destruct (negb (mining s)); [|apply preserves_ret].
    apply preserves_lift. intros n. apply P_mineBlock. }
  apply preserves_bind; [|intros; apply preserves_ret].
  cbn [Tx.to]. destruct (JS.includes _ _); [|apply preserves_ret].
  apply preserves_update. intros n. apply P_contract.
Qed.

Lemma invariant_processMethod now method params :
  preserves P (processMethod now method params).
Proof.
  unfold processMethod, eth_getBlockByNumber, eth_call.
  repeat
    match goal with
    | |- preserves _ (if ?b then _ else _) => destruct b
    | |- preserves _ (match ?x with _ => _ end) => destruct x
    | |- preserves _ (eth_sendTransaction _ _) => apply invariant_eth_sendTransaction
    | |- preserves _ (eth_sendRawTransaction _ _) => apply invariant_eth_sendRawTransaction
    | _ => preserves_step
    end.
Qed.

Lemma invariant_step e n : P n -> P (step e n).
Proof.
  intros H. destruct e as [now body| tx | block | | now | now | i]; simpl.
  - unfold handleRPCRequest. destruct body as [request|]; [|done].
    pose proof (invariant_processMethod now (Request.method request)
                  (Request.params request) n H) as H'.
    by destruct (processMethod _ _ _ n).
  - by apply P_onTransaction.
  - by apply P_onBlock.
  - unfold handleConsensusMessage. by destruct n as [[]].
  - destruct (timeouts n) eqn:E; [done|]. by apply P_mineBlock, P_timeouts.
  - destruct (_ && _); [by apply P_mineBlock|done].
  - by apply P_resume.
Qed.

Lemma invariant_reachable :
  (forall now, 0 <= now -> P (startServer now)) -> forall n, reachable n -> P n.
Proof.
  intros H0 n H. induction H; [by apply H0|by apply invariant_step].
Qed.
End EventInvariant.

(** ** The chain, the accounts and the contracts only grow *)

Lemma grows_refl s : grows s s.
Proof. unfold grows. split; [done|]. split; [done|lia]. Qed.

Lemma grows_trans a b c : grows a b -> grows b c -> grows a c.
Proof.
  intros (? & ? & ?) (? & ? & ?). split; [by etrans|]. split; [by etrans|lia].
Qed.

Lemma grows_same a b c :
  blocks c = blocks b -> transactions c = transactions b ->
  nextBlockNumber c = nextBlockNumber b -> grows a b -> grows a c.
Proof. intros E1 E2 E3 (? & ? & ?). unfold grows. by rewrite E1, E2, E3. Qed.

Lemma addBlock_grows block s : grows s (addBlock block s).
Proof.
  unfold addBlock. destruct (List.find _ _); [apply grows_refl|].
  unfold grows. simpl. split; [by apply prefix_app_r|].
  split; [by apply prefix_app_r|lia].
Qed.

Lemma mineBlockSync_height now n :
  nextBlockNumber (state (finalNode (mineBlockSync now n))) = nextBlockNumber (state n).
Proof.
  unfold mineBlockSync. run_M.
  destruct (bool_decide _); simpl; [done|].
  destruct (blockAt _ _); simpl; [|done].
  by destruct (processTransactions_frame (nextBlockNumber (state n)) (seconds now)
                 (pendingTransactions (state n)) (state n)) as (_ & _ & ? & _ & _).
Qed.

Lemma mineBlock_grows now n : grows (state n) (state (mineBlock now n)).
Proof.
  pose proof (mineBlockSync_height now n) as Hh.
  destruct (mineBlockSync_ledger now n) as (Hb & Ht & _ & _).
  assert (Hg : grows (state n) (state (finalNode (mineBlockSync now n)))).
  { apply (grows_same _ (state n)); [done..|apply grows_refl]. }
  unfold mineBlock.
  destruct (mineBlockSync now n) as [[newBlock|] n'|e n']; simpl in *; try done.
  destruct (p2pNode (state n')); simpl; [done|].
  eapply grows_trans; [exact Hg|apply addBlock_grows].
Qed.

Lemma step_grows e n : grows (state n) (state (step e n)).
Proof.
  apply (invariant_step (fun m => grows (state n) (state m))).
  - by intros tx m.
  - intros a m. apply grows_same; unfold bumpNonce; simpl;
      by destruct (accounts (state m) !! a).
  - by intros k c m.
  - by intros k m.
  - intros now m H. eapply grows_trans; [exact H|apply mineBlock_grows].
  - intros tx m. apply grows_same; unfold onTransaction; simpl;
      by destruct (List.find _ _).
  - intros block m H. simpl. unfold onBlock.
    destruct (validateBlock _ _); [|done].
    eapply grows_trans; [exact H|apply addBlock_grows].
  - intros i m H. unfold resumeMineBlock. destruct (suspended m !! i); [|done].
    simpl. eapply grows_trans; [exact H|apply addBlock_grows].
  - apply grows_refl.
Qed.

(** X3.  Through any sequence of events the node only appends: the chain and
    the transaction index after the events start with the chain and the
    index before them, and [nextBlockNumber] has not decreased.  No event
    removes, reorders or replaces a stored block or an indexed transaction. *)
Theorem chain_is_append_only (events : list Event) (n : Node) :
  grows (state n) (state (run events n)).
Proof.
  revert n. induction events as [|e events IH]; intros n; simpl; [apply grows_refl|].
  eapply grows_trans; [apply step_grows|apply IH].
Qed.

Lemma nonceGrows_refl accs : nonceGrows accs accs.
Proof. intros k a H. exists a. split; [done|lia]. Qed.

Lemma nonceGrows_trans a b c : nonceGrows a b -> nonceGrows b c -> nonceGrows a c.
Proof.
  intros Hab Hbc k x Hx. destruct (Hab k x Hx) as (y & Hy & Ey).
  destruct (Hbc k y Hy) as (z & Hz & Ez). exists z. split; [done|lia].
Qed.

Lemma sameNonces_nonceGrows a b : sameNonces a b -> nonceGrows a b.
Proof. intros H k x Hx. destruct (H k x Hx) as (y & Hy & Ey). exists y. split; [done|lia]. Qed.

Lemma bumpNonce_nonceGrows k s : nonceGrows (accounts s) (accounts (bumpNonce k s)).
Proof.
  unfold bumpNonce. destruct (accounts s !! k) as [a|] eqn:E; [|apply nonceGrows_refl].
  simpl. intros j x Hj. destruct (decide (k = j)) as [->|Hne].
  - rewrite lookup_insert_eq. eexists. split; [done|]. simpl.
    rewrite E in Hj. injection Hj as <-. lia.
  - rewrite lookup_insert_ne by done. exists x. split; [done|lia].
Qed.

Lemma step_nonceGrows e n : nonceGrows (accounts (state n)) (accounts (state (step e n))).
Proof.
  apply (invariant_step (fun m => nonceGrows (accounts (state n)) (accounts (state m)))).
  - by intros tx m.
  - intros a m H. eapply nonceGrows_trans; [exact H|apply bumpNonce_nonceGrows].
  - by intros k c m.
  - by intros k m.
  - intros now m H. eapply nonceGrows_trans; [exact H|].
    apply sameNonces_nonceGrows, mineBlock_sameNonces.
  - intros tx m H. simpl. unfold onTransaction. by destruct (List.find _ _).
  - intros block m H. simpl. unfold onBlock.
    destruct (validateBlock _ _); [by rewrite addBlock_accounts|done].
  - intros i m H. unfold resumeMineBlock. destruct (suspended m !! i); [|done].
    simpl. by rewrite addBlock_accounts.
  - apply nonceGrows_refl.
Qed.

(** X4.  Through any sequence of events every account stays, and its nonce
    never decreases: no RPC request, gossip delivery, timer or broadcast
    deletes an account or lowers a nonce. *)
Theorem accounts_stay_and_nonces_never_decrease (events : list Event) (n : Node) :
  nonceGrows (accounts (state n)) (accounts (state (run events n))).
Proof.
  revert n. induction events as [|e events IH]; intros n; simpl; [apply nonceGrows_refl|].
  eapply nonceGrows_trans; [apply step_nonceGrows|apply IH].
Qed.

(** ** Contract records *)

Lemma contractsKept_refl c : contractsKept c c.
Proof. by intros k H. Qed.

Lemma contractsKept_trans a b c : contractsKept a b -> contractsKept b c -> contractsKept a c.
Proof. intros Hab Hbc k H. by apply Hbc, Hab. Qed.

Lemma contractsKept_insert k c m : contractsKept m (<[k := c]> m).
Proof.
  intros j H. destruct (decide (k = j)) as [->|Hne].
  - rewrite lookup_insert_eq. by eexists.
  - by rewrite lookup_insert_ne.
Qed.

Lemma processTransaction_contracts bn ts s tx :
  contracts (fst (processTransaction bn ts s tx))
  = if createsContract tx
    then <[contractAddressOf tx := Contract.mk (Tx.input tx) ∅ (Tx.from tx)]> (contracts s)
    else contracts s.
Proof. unfold processTransaction. by destruct (createsContract tx). Qed.

Lemma processTransactions_contractsKept bn ts txs : forall s,
  contractsKept (contracts s) (contracts (fst (processTransactions bn ts s txs))).
Proof.
  induction txs as [|tx txs IH]; intros s; cbn [processTransactions fst snd];
    [apply contractsKept_refl|].
  eapply contractsKept_trans; [|apply IH].
  rewrite processTransaction_contracts.
  destruct (createsContract tx); [apply contractsKept_insert|apply contractsKept_refl].
Qed.




Lemma mineBlock_contractsKept now n :
  contractsKept (contracts (state n)) (contracts (state (mineBlock now n))).
Proof.
  unfold mineBlock, mineBlockSync. run_M.
  destruct (bool_decide _); simpl; [apply contractsKept_refl|].
  destruct (blockAt _ _); simpl; [|apply contractsKept_refl].
  destruct (p2pNode _); simpl; rewrite ?addBlock_contracts;
    apply processTransactions_contractsKept.
Qed.

Lemma getCode_answer now id k rest n :
  fst (handleRPCRequest now (Some (Request.mk id "eth_getCode" (Some (PStr k :: rest)))) n)
  = Response.mk id
      (Some (RStr (match contracts (state n) !! k with
                   | Some c => Contract.bytecode c
                   | None => "0x"%string
                   end))) None.
Proof.
  unfold handleRPCRequest, processMethod.
  cbn [Request.method Request.params Request.id String.eqb Ascii.eqb Bool.eqb].
  run_M. by destruct (contracts (state n) !! k).
Qed.



Lemma step_contractsKept e n :
  contractsKept (contracts (state n)) (contracts (state (step e n))).
Proof.
  apply (invariant_step (fun m => contractsKept (contracts (state n)) (contracts (state m)))).
  - by intros tx m.
  - intros a m H. unfold bumpNonce. simpl. by destruct (accounts (state m) !! a).
  - intros k c m H. simpl. eapply contractsKept_trans; [exact H|apply contractsKept_insert].
  - by intros k m.
  - intros now m H. eapply contractsKept_trans; [exact H|apply mineBlock_contractsKept].
  - intros tx m H. simpl. unfold onTransaction. by destruct (List.find _ _).
  - intros block m H. simpl. unfold onBlock.
    destruct (validateBlock _ _); [by rewrite addBlock_contracts|done].
  - intros i m H. unfold resumeMineBlock. destruct (suspended m !! i); [|done].
    simpl. by rewrite addBlock_contracts.
  - apply contractsKept_refl.
Qed.

(** X6.  Through any sequence of events every contract address that has a
    record keeps one: records are written and overwritten, never removed. *)
Theorem contracts_are_never_removed (events : list Event) (n : Node) :
  contractsKept (contracts (state n)) (contracts (state (run events n))).
Proof.
  revert n. induction events as [|e events IH]; intros n; simpl; [apply contractsKept_refl|].
  eapply contractsKept_trans; [apply step_contractsKept|apply IH].
Qed.

(** ** Who mines the blocks of the chain *)

Lemma addBlock_authorityInvariant block n :
  byAuthority block -> authorityInvariant n -> authorityInvariant (on_state (addBlock block) n).
Proof.
  intros Hb (Hc & Hs & Hne & Hf). unfold authorityInvariant. simpl.
  split; [done|]. split; [done|].
  unfold addBlock. destruct (List.find _ _); [done|]. simpl.
  split; [by destruct (blocks (state n))|].
  destruct (blocks (state n)) as [|g rest]; [done|]. simpl in *.
  apply Forall_app. split; [done|]. by apply Forall_singleton.
Qed.

Lemma same_blocks_authorityInvariant n m :
  currentAuthorityIndex m = currentAuthorityIndex n ->
  suspended m = suspended n ->
  blocks (state m) = blocks (state n) ->
  authorityInvariant n -> authorityInvariant m.
Proof. unfold authorityInvariant. by intros -> -> ->. Qed.

Lemma mineBlock_authorityInvariant now n :
  authorityInvariant n -> authorityInvariant (mineBlock now n).
Proof.
  intros H. pose proof H as (Hc & Hs & Hne & Hf).
  unfold mineBlock, mineBlockSync. run_M.
  destruct (bool_decide _); simpl; [done|].
  assert (Hnext : (((currentAuthorityIndex n + 1) mod 4) < length AUTHORITIES)%nat).
  { change (length AUTHORITIES) with 4%nat. apply Nat.mod_upper_bound. lia. }
  destruct (blockAt _ _) as [parent|] eqn:Hp; simpl.
  2:{ unfold authorityInvariant. simpl. done. }
  destruct (processTransactions_frame (nextBlockNumber (state n)) (seconds now)
              (pendingTransactions (state n)) (state n)) as (Hb & _).
  set (processed := processTransactions _ _ _ _) in *.
  set (newBlock := Block.mk _ _ _ _ _ _ _ _ _ _ _).
  assert (Hnew : byAuthority newBlock).
  { destruct (lookup_lt_is_Some_2 AUTHORITIES (currentAuthorityIndex n) Hc) as [a Ha].
    exists a. split; [by eapply list_elem_of_lookup_2|]. done. }
  set (n1 := on_state _ (set_currentAuthorityIndex _ n)).
  assert (H1 : authorityInvariant n1).
  { unfold authorityInvariant, n1. simpl. rewrite Hb. split; [exact Hnext|done]. }
  destruct (p2pNode _).
  - destruct H1 as (? & ? & ? & ?). unfold authorityInvariant. simpl in *.
    split; [done|]. split; [|done]. apply Forall_app. split; [done|by apply Forall_singleton].
  - by apply (addBlock_authorityInvariant newBlock n1).
Qed.

Lemma step_authorityInvariant e n : authorityInvariant n -> authorityInvariant (step e n).
Proof.
  apply (invariant_step authorityInvariant).
  - by intros tx m.
  - intros a m. apply same_blocks_authorityInvariant; try done.
    unfold bumpNonce. simpl. by destruct (accounts (state m) !! a).
  - by intros k c m.
  - by intros k m.
  - intros now m. apply mineBlock_authorityInvariant.
  - intros tx m. apply same_blocks_authorityInvariant; try done.
    unfold onTransaction. simpl. by destruct (List.find _ _).
  - intros block m H. unfold onBlock. destruct (validateBlock block (state m)) eqn:E.
    + pose proof E as E'. apply validateBlock_true in E' as (_ & _ & _ & Hm).
      pose proof (addBlock_authorityInvariant block m Hm H) as H'.
      unfold on_state in *. simpl in *. by rewrite E.
    + unfold on_state. simpl. rewrite E. by destruct m.
  - intros i m H. unfold resumeMineBlock.
    destruct (suspended m !! i) as [newBlock|] eqn:E; [|done].
    pose proof H as (Hc & Hs & Hne & Hf).
    apply addBlock_authorityInvariant.
    + rewrite Forall_forall in Hs. apply Hs. by eapply list_elem_of_lookup_2.
    + unfold authorityInvariant. simpl. split; [done|]. split; [|done].
      by apply Forall_delete.
Qed.

Lemma startServer_authorityInvariant now : authorityInvariant (startServer now).
Proof.
  unfold authorityInvariant. simpl.
  split; [lia|]. split; [done|]. split; [done|]. done.
Qed.

Lemma reachable_authorityInvariant n : reachable n -> authorityInvariant n.
Proof.
  intros Hr.
  induction Hr; [apply startServer_authorityInvariant|by apply step_authorityInvariant].
Qed.

(** X7.  In every reachable state the cursor is one of the four positions of
    [AUTHORITIES], and every block of the chain after the genesis block,
    whether it was produced here or received from a peer, has one of the
    authorities as its miner. *)
Theorem blocks_after_genesis_are_mined_by_authorities (n : Node) (i : nat) (b : Block.t) :
  reachable n ->
  (0 < i)%nat ->
  blocks (state n) !! i = Some b ->
  (currentAuthorityIndex n < 4)%nat /\ byAuthority b.
Proof.
  intros Hr Hi Hb.
  destruct (reachable_authorityInvariant n Hr) as (Hc & _ & _ & Hf). split; [exact Hc|].
  rewrite Forall_forall in Hf. apply Hf.
  apply list_elem_of_lookup. exists (i - 1)%nat. rewrite lookup_drop.
  by replace (1 + (i - 1))%nat with i by lia.
Qed.

(** The theorem at the node that has mined the transfer, for its block. *)
Lemma blocks_after_genesis_are_mined_by_authorities_witness :
  reachable minedNode
  /\ (0 < 1)%nat
  /\ blocks (state minedNode) !! 1%nat = Some minedBlock
  /\ ((currentAuthorityIndex minedNode < 4)%nat /\ byAuthority minedBlock).
Proof.
  assert (H1 : reachable minedNode) by apply reachable_run, reachable_node0.
  assert (H2 : (0 < 1)%nat) by lia.
  assert (H3 : blocks (state minedNode) !! 1%nat = Some minedBlock)
    by (vm_compute; reflexivity).
  split; [exact H1|]. split; [exact H2|]. split; [exact H3|].
  exact (blocks_after_genesis_are_mined_by_authorities minedNode 1 minedBlock H1 H2 H3).
Defined.

(** ** Hexadecimal quantities, written and read back *)

Lemma hexValue_digitChar d : (d < 16)%N -> JS.hexValue (JS.digitChar d) = Some (Z.of_N d).
Proof.
  intros H. destruct d as [|p]; [reflexivity|].
  do 5 (try (destruct p as [p|p|]; try reflexivity; try lia)).
Qed.

Lemma pos_lt_pow_size_nat p : (N.pos p < 2 ^ N.of_nat (Pos.size_nat p))%N.
Proof.
  induction p as [p IH|p IH|]; [| |reflexivity];
    cbn [Pos.size_nat]; rewrite Nat2N.inj_succ, N.pow_succ_r';
    set (k := (2 ^ N.of_nat (Pos.size_nat p))%N) in *; lia.
Qed.

Lemma lt_pow_size_nat x : (x < 2 ^ N.of_nat (N.size_nat x))%N.
Proof. destruct x as [|p]; [reflexivity|apply pos_lt_pow_size_nat]. Qed.

Lemma hexPrefix_digits fuel : forall x acc,
  (x < 2 ^ N.of_nat fuel)%N -> (0 < fuel)%nat ->
  JS.hexPrefix (JS.digits 16 fuel x acc) None = JS.hexPrefix acc (Some (Z.of_N x)).
Proof.
  induction fuel as [|k IH]; intros x acc Hx Hk; [lia|].
  cbn [JS.digits].
  pose proof (N.div_mod' x 16) as Hdm.
  pose proof (N.mod_lt x 16 ltac:(lia)) as Hm.
  rewrite Nat2N.inj_succ, N.pow_succ_r' in Hx.
  set (pow := (2 ^ N.of_nat k)%N) in *.
  set (q := (x / 16)%N) in *. set (r := (x mod 16)%N) in *.
  destruct (N.eqb_spec q 0) as [Hz|Hnz].
  - cbn [JS.hexPrefix]. rewrite hexValue_digitChar by done. simpl default.
    do 2 f_equal. clearbody q r pow. lia.
  - assert (Hk' : (0 < k)%nat).
    { destruct k; [|lia]. change pow with 1%N in Hx. clearbody q r. lia. }
    rewrite IH; [|clear IH|done].
    + cbn [JS.hexPrefix]. rewrite hexValue_digitChar by done. simpl default.
      do 2 f_equal. clearbody q r pow. lia.
    + fold pow. clearbody q r pow. lia.
Qed.

(** [parseInt('0x' + n.toString(16), 16)] is [n], for a number that is not
    negative. *)
Lemma parseInt16_hex n : 0 <= n -> JS.parseInt16 (hex n) = Some n.
Proof.
  intros H. unfold hex, JS.toString.
  destruct (Z.ltb_spec n 0) as [|_]; [lia|].
  change (JS.parseInt16 ("0x" +:+ ?b)) with (JS.hexPrefix b None).
  rewrite hexPrefix_digits.
  - simpl. f_equal. lia.
  - rewrite Nat2N.inj_succ, N.pow_succ_r'.
    pose proof (lt_pow_size_nat (Z.abs_N n)). lia.
  - lia.
Qed.

(** ** Reading the chain through the gateway *)

(** X8.  [eth_getBlockByNumber] asked with the text ['0x' + i.toString(16)] of
    a position [i] that is not negative answers with the block stored at
    position [i] of the chain, whatever the [number] member of that block
    says, with full transactions or hashes as the second parameter is truthy
    or not; when the chain has no position [i] the answer is the structured
    error with the text "Block not found".  The node is not changed. *)
Theorem getBlockByNumber_reads_position (now : Z) (id : option Z) (i : Z)
    (rest : list Param) (n : Node) :
  0 <= i ->
  handleRPCRequest now
    (Some (Request.mk id "eth_getBlockByNumber" (Some (PStr (hex i) :: rest)))) n
  = (match blocks (state n) !! Z.to_nat i with
     | Some b => Response.mk id (Some (RBlock b (paramTruthy (rest !! 0%nat)))) None
     | None => Response.mk id None (Some (internalError "Block not found"))
     end, n).
Proof.
  intros Hi. unfold handleRPCRequest, processMethod.
  cbn [Request.method Request.params Request.id String.eqb Ascii.eqb Bool.eqb].
  unfold eth_getBlockByNumber. run_M. rewrite parseInt16_hex by done.
  unfold blockAt. destruct (Z.ltb_spec i 0) as [|_]; [lia|].
  destruct (Z.leb_spec (Z.of_nat (length (blocks (state n)))) i) as [Hge|Hlt].
  - rewrite lookup_ge_None_2 by lia. done.
  - destruct (lookup_lt_is_Some_2 (blocks (state n)) (Z.to_nat i)) as [b Hb]; [lia|].
    by rewrite Hb.
Qed.

(** The theorem at the node that has mined the transfer, for position 1. *)
Lemma getBlockByNumber_reads_position_witness :
  0 <= 1
  /\ handleRPCRequest (t0 + 20000)
       (Some (Request.mk (Some 4) "eth_getBlockByNumber" (Some [PStr (hex 1); PBool true])))
       minedNode
     = (match blocks (state minedNode) !! Z.to_nat 1 with
        | Some b => Response.mk (Some 4) (Some (RBlock b (paramTruthy ([PBool true] !! 0%nat)))) None
        | None => Response.mk (Some 4) None (Some (internalError "Block not found"))
        end, minedNode).
Proof.
  assert (H : 0 <= 1) by lia.
  split; [exact H|].
  exact (getBlockByNumber_reads_position (t0 + 20000) (Some 4) 1 [PBool true] minedNode H).
Defined.

(** ** The methods that write *)

Lemma processMethod_reads now method params n :
  method <> "eth_sendTransaction"%string ->
  method <> "eth_sendRawTransaction"%string ->
  preserves (fun m => m = n) (processMethod now method params).
Proof.
  intros H1 H2. unfold processMethod, eth_getBlockByNumber, eth_call.
  repeat
    match goal with
    | |- preserves _ (if String.eqb method ?m then _ else _) =>
        destruct (String.eqb_spec method m) as [E|_]
    | |- preserves _ (eth_sendTransaction _ _) => by exfalso
    | |- preserves _ (eth_sendRawTransaction _ _) => by exfalso
    | |- preserves _ (if ?b then _ else _) => destruct b
    | |- preserves _ (match ?x with _ => _ end) => destruct x
    | _ => preserves_step
    end.
Qed.

(** X9.  Of all the methods a request can name, only [eth_sendTransaction] and
    [eth_sendRawTransaction] can change the node: a request for any other
    method, known to the dispatcher or not, with any parameters or none,
    answered with a result or with an error, leaves chain, index, pool,
    accounts, contracts, cursor and timers exactly as they were. *)
Theorem only_the_send_methods_write (now : Z) (id : option Z) (method : string)
    (params : option (list Param)) (n : Node) :
  method <> "eth_sendTransaction"%string ->
  method <> "eth_sendRawTransaction"%string ->
  step (Rpc now (Some (Request.mk id method params))) n = n.
Proof.
  intros H1 H2. cbn [step]. unfold handleRPCRequest.
  cbn [Request.method Request.params Request.id].
  pose proof (processMethod_reads now method params n H1 H2 n eq_refl) as H.
  by destruct (processMethod now method params n).
Qed.

(** The theorem at the node that holds a transfer in the pool, for
    evm_mine. *)
Lemma only_the_send_methods_write_witness :
  "evm_mine"%string <> "eth_sendTransaction"%string
  /\ "evm_mine"%string <> "eth_sendRawTransaction"%string
  /\ step (Rpc (t0 + 700) (Some (Request.mk (Some 2) "evm_mine" (Some [])))) submittedNode
     = submittedNode.
Proof.
  assert (H1 : "evm_mine"%string <> "eth_sendTransaction"%string) by discriminate.
  assert (H2 : "evm_mine"%string <> "eth_sendRawTransaction"%string) by discriminate.
  split; [exact H1|]. split; [exact H2|].
  exact (only_the_send_methods_write (t0 + 700) (Some 2) "evm_mine" (Some []) submittedNode H1 H2).
Defined.
(** ** What [addBlock] does to the pool and the index *)

Lemma addBlock_pool block s t :
  ~ stored (Block.hash block) s ->
  t ∈ pendingTransactions (addBlock block s)
  <-> t ∈ pendingTransactions s
      /\ forall u, u ∈ Block.transactions block -> Tx.hash u <> Tx.hash t.
Proof.
  intros H. apply find_sameHash_fresh in H. unfold addBlock. rewrite H. simpl.
  split.
  - intros Hin. apply list_elem_of_In, filter_In in Hin as [Hin Hn].
    apply negb_true_iff, bool_decide_eq_false in Hn.
    split; [by apply list_elem_of_In|]. intros u Hu Hh. apply Hn.
    apply list_elem_of_In, in_map_iff. exists u. split; [done|by apply list_elem_of_In].
  - intros [Hin Hn]. apply list_elem_of_In, filter_In. split; [by apply list_elem_of_In|].
    apply negb_true_iff, bool_decide_eq_false. intros Hx.
    apply list_elem_of_In, in_map_iff in Hx as (u & Hh & Hu).
    apply (Hn u); [by apply list_elem_of_In|done].
Qed.

(** X10.  When a block with a hash that is not stored goes through [addBlock]
    (gossiped by a peer or produced here), the pool afterwards holds exactly
    the transactions it held whose hash is not the hash of a transaction of
    the block, and [eth_getTransactionByHash] finds every hash of the block:
    it answers with a stored transaction of that hash. *)
Theorem added_block_moves_its_transactions (now : Z) (id : option Z) (block : Block.t)
    (n : Node) :
  ~ stored (Block.hash block) (state n) ->
  let n' := on_state (addBlock block) n in
  (forall t, t ∈ pendingTransactions (state n')
             <-> t ∈ pendingTransactions (state n)
                 /\ forall u, u ∈ Block.transactions block -> Tx.hash u <> Tx.hash t)
  /\ (forall tx, tx ∈ Block.transactions block ->
        exists tx',
          handleRPCRequest now
            (Some (Request.mk id "eth_getTransactionByHash" (Some [PStr (Tx.hash tx)]))) n'
          = (Response.mk id (Some (RTx tx')) None, n')
          /\ Tx.hash tx' = Tx.hash tx).
Proof.
  intros H n'. split; [intros t; by apply addBlock_pool|].
  intros tx Hin. unfold handleRPCRequest, processMethod.
  cbn [Request.method Request.params Request.id String.eqb Ascii.eqb Bool.eqb].
  run_M. destruct (addBlock_fresh block (state n) H) as [_ ->].
  destruct (List.find _ _) as [tx'|] eqn:E.
  - exists tx'. split; [done|]. by apply find_hash_Some in E as [_ ?].
  - apply find_hash_None in E. destruct E. exists tx. split; [|done].
    apply elem_of_app. by right.
Qed.

(** The theorem at the node that holds the transfer in the pool, for a block
    a peer has produced with that transfer. *)
Lemma added_block_moves_its_transactions_witness :
  ~ stored (Block.hash carrierBlock) (state submittedNode)
  /\ let n' := on_state (addBlock carrierBlock) submittedNode in
     (forall t, t ∈ pendingTransactions (state n')
                <-> t ∈ pendingTransactions (state submittedNode)
                    /\ forall u, u ∈ Block.transactions carrierBlock -> Tx.hash u <> Tx.hash t)
     /\ (forall tx, tx ∈ Block.transactions carrierBlock ->
           exists tx',
             handleRPCRequest (t0 + 900)
               (Some (Request.mk (Some 2) "eth_getTransactionByHash"
                        (Some [PStr (Tx.hash tx)]))) n'
             = (Response.mk (Some 2) (Some (RTx tx')) None, n')
             /\ Tx.hash tx' = Tx.hash tx).
Proof.
  assert (H : ~ stored (Block.hash carrierBlock) (state submittedNode))
    by (apply find_sameHash_fresh; vm_compute; reflexivity).
  split; [exact H|].
  exact (added_block_moves_its_transactions (t0 + 900) (Some 2) carrierBlock submittedNode H).
Defined.

(** ** Submission on a started node *)

(** X11.  On a started node [eth_sendTransaction] never answers with a hash:
    whatever the parameters, the answer is the structured error -32603
    "Internal error".  A request that gets as far as the pool stops at
    [state.p2pNode.broadcastTransaction], which the transport does not
    have. *)
Theorem sendTransaction_always_answers_with_an_error (now : Z) (id : option Z)
    (params : option (list Param)) (n : Node) :
  reachable n ->
  exists message,
    fst (handleRPCRequest now (Some (Request.mk id "eth_sendTransaction" params)) n)
    = Response.mk id None (Some (internalError message)).
Proof.
  intros Hr. apply reachable_flags in Hr as [_ Hp].
  unfold handleRPCRequest, processMethod.
  cbn [Request.method Request.params Request.id String.eqb Ascii.eqb Bool.eqb].
  unfold eth_sendTransaction. run_M.
  destruct params as [l|]; simpl; [|by eexists].
  unfold createTransaction. destruct (l !! 0%nat) as [p|]; run_M; [|by eexists].
  destruct (accounts (state n) !! _) as [a|] eqn:E; simpl; [|by eexists].
  unfold bumpNonce. rewrite E. simpl. rewrite Hp. by eexists.
Qed.

(** The theorem at the started node, for a transfer of 5 wei. *)
Lemma sendTransaction_always_answers_with_an_error_witness :
  reachable node0
  /\ exists message,
       fst (handleRPCRequest (t0 + 500)
              (Some (Request.mk (Some 1) "eth_sendTransaction"
                       (Some [PObj (transferParams 5)]))) node0)
       = Response.mk (Some 1) None (Some (internalError message)).
Proof.
  split; [exact reachable_node0|].
  exact (sendTransaction_always_answers_with_an_error (t0 + 500) (Some 1)
           (Some [PObj (transferParams 5)]) node0 reachable_node0).
Defined.

Lemma startServer_defaultSender now :
  is_Some (accounts (state (startServer now)) !! defaultSender).
Proof.
  unfold startServer, startMining, initP2PNode, initGenesisBlock, defaultSender. simpl.
  rewrite !lookup_insert_ne by done. rewrite lookup_insert_eq. by eexists.
Qed.

Lemma reachable_defaultSender n :
  reachable n -> is_Some (accounts (state n) !! defaultSender).
Proof.
  intros H. induction H as [now Hnow|e n H IH]; [apply startServer_defaultSender|].
  destruct IH as [a Ha]. destruct (step_nonceGrows e n _ _ Ha) as (a' & Ha' & _).
  by exists a'.
Qed.

(** X12.  On a started node [eth_sendRawTransaction] accepts every string: the
    payload is not decoded, and the answer is ['0x'] followed by the SHA-256
    digest of the payload.  The request appends one transaction from the
    default sender to the pool, adds no block, and, when the payload holds
    the text 6060604, writes at once a contract record at the address derived
    from that hash and the sender's nonce, so that [eth_getCode] at the
    address answers with the dummy bytecode before any block is produced. *)
Theorem sendRawTransaction_accepts_every_string (now : Z) (id id' : option Z)
    (rawTx : string) (rest : list Param) (n : Node) :
  reachable n ->
  let out :=
    handleRPCRequest now
      (Some (Request.mk id "eth_sendRawTransaction" (Some (PStr rawTx :: rest)))) n in
  exists a tx,
    accounts (state n) !! defaultSender = Some a
    /\ fst out = Response.mk id (Some (RStr ("0x" +:+ sha256 rawTx))) None
    /\ pendingTransactions (state (snd out)) = pendingTransactions (state n) ++ [tx]
    /\ Tx.hash tx = "0x" +:+ sha256 rawTx
    /\ Tx.nonce tx = hex (Account.nonce a)
    /\ Tx.input tx = rawTx
    /\ blocks (state (snd out)) = blocks (state n)
    /\ (JS.includes "6060604" rawTx = true ->
        Tx.to tx = None
        /\ fst (handleRPCRequest now
                  (Some (Request.mk id' "eth_getCode" (Some [PStr (contractAddressOf tx)])))
                  (snd out))
           = Response.mk id' (Some (RStr dummyBytecode)) None)
    /\ (JS.includes "6060604" rawTx = false ->
        Tx.to tx = Some defaultRecipient
        /\ contracts (state (snd out)) = contracts (state n)).
Proof.
  intros Hr out. destruct (reachable_defaultSender n Hr) as [a Ha].
  apply reachable_flags in Hr as [Hm _].
  pose (tx := Tx.mk ("0x" +:+ sha256 rawTx) (Some defaultSender)
                (if JS.includes "6060604" rawTx then None else Some defaultRecipient)
                0 "0x5208" "0x3b9aca00" rawTx (hex (Account.nonce a)) None None None).
  assert (Hout : fst out = Response.mk id (Some (RStr ("0x" +:+ sha256 rawTx))) None
                 /\ state (snd out)
                    = (fun s => if JS.includes "6060604" rawTx
                                then set_contracts
                                       (<[contractAddressOf tx :=
                                            Contract.mk dummyBytecode ∅ (Some defaultSender)]>
                                          (contracts s)) s
                                else s)
                        (bumpNonce defaultSender (push tx (state n)))).
  { subst out. unfold handleRPCRequest, processMethod.
    cbn [Request.method Request.params Request.id String.eqb Ascii.eqb Bool.eqb].
    unfold eth_sendRawTransaction. run_M. rewrite Ha, Hm. simpl.
    subst tx. by destruct (JS.includes "6060604" rawTx). }
  destruct Hout as [Hres Hst]. exists a, tx. rewrite getCode_answer, Hres, Hst.
  unfold bumpNonce. simpl. rewrite Ha.
  split; [done|]. split; [done|].
  destruct (JS.includes "6060604" rawTx) eqn:E; simpl; conjuncts; try done.
  all: intros _; split; [done|]; by rewrite lookup_insert_eq.
Qed.

(** The theorem at the started node, for a payload with the marker. *)
Lemma sendRawTransaction_accepts_every_string_witness :
  reachable node0
  /\ let out :=
       handleRPCRequest (t0 + 500)
         (Some (Request.mk (Some 1) "eth_sendRawTransaction" (Some [PStr creationPayload])))
         node0 in
     exists a tx,
       accounts (state node0) !! defaultSender = Some a
       /\ fst out = Response.mk (Some 1) (Some (RStr ("0x" +:+ sha256 creationPayload))) None
       /\ pendingTransactions (state (snd out)) = pendingTransactions (state node0) ++ [tx]
       /\ Tx.hash tx = "0x" +:+ sha256 creationPayload
       /\ Tx.nonce tx = hex (Account.nonce a)
       /\ Tx.input tx = creationPayload
       /\ blocks (state (snd out)) = blocks (state node0)
       /\ (JS.includes "6060604" creationPayload = true ->
           Tx.to tx = None
           /\ fst (handleRPCRequest (t0 + 500)
                     (Some (Request.mk (Some 2) "eth_getCode"
                              (Some [PStr (contractAddressOf tx)])))
                     (snd out))
              = Response.mk (Some 2) (Some (RStr dummyBytecode)) None)
       /\ (JS.includes "6060604" creationPayload = false ->
           Tx.to tx = Some defaultRecipient
           /\ contracts (state (snd out)) = contracts (state node0)).
Proof.
  split; [exact reachable_node0|].
  exact (sendRawTransaction_accepts_every_string (t0 + 500) (Some 1) (Some 2)
           creationPayload [] node0 reachable_node0).
Defined.
(** ** One round of block production *)





(** ** The sum of the balances *)








(** ** The height the node reports *)




(** ** Looking a transaction up by its hash *)

(** X16.  In every reachable state [eth_getTransactionByHash] answers without an
    error and without changing the node; the result is a transaction of the
    index with the hash asked for exactly when a block of the chain holds a
    transaction with that hash, and null otherwise: a transaction that is
    only in the pool is not found. *)
Theorem getTransactionByHash_iff_included (n : Node) (now : Z) (id : option Z)
    (h : string) (rest : list Param) :
  reachable n ->
  let out :=
    handleRPCRequest now
      (Some (Request.mk id "eth_getTransactionByHash" (Some (PStr h :: rest)))) n in
  snd out = n
  /\ Response.id (fst out) = id
  /\ Response.error (fst out) = None
  /\ (included h (state n) <->
      exists tx, Response.result (fst out) = Some (RTx tx)
                 /\ Tx.hash tx = h /\ tx ∈ transactions (state n))
  /\ (~ included h (state n) <-> Response.result (fst out) = Some RNull).
Proof.
  intros Hr. apply reachable_chainIndexed in Hr.
  pose proof (included_indexed h (state n) Hr) as Hi.
  unfold handleRPCRequest, processMethod.
  cbn [Request.method Request.params String.eqb Ascii.eqb Bool.eqb].
  run_M.
  destruct (List.find _ _) as [tx|] eqn:E; simpl.
  - apply find_hash_Some in E as [Hin Hh].
    assert (Hinc : included h (state n)) by (apply Hi; by exists tx).
    split; [done|]. split; [done|]. split; [done|]. split; split; try done.
    intros _. by exists tx.
  - apply find_hash_None in E.
    assert (Hinc : ~ included h (state n)) by (intros H; apply E; by apply Hi).
    split; [done|]. split; [done|]. split; [done|]. split; split; try done.
    intros (r & Hres & _). discriminate.
Qed.

(** The theorem at the node that holds the transfer in the pool, for the
    hash of that transfer. *)
Lemma getTransactionByHash_iff_included_witness :
  reachable submittedNode
  /\ let out :=
       handleRPCRequest (t0 + 900)
         (Some (Request.mk (Some 2) "eth_getTransactionByHash" (Some [PStr minedHash])))
         submittedNode in
     snd out = submittedNode
     /\ Response.id (fst out) = Some 2
     /\ Response.error (fst out) = None
     /\ (included minedHash (state submittedNode) <->
         exists tx, Response.result (fst out) = Some (RTx tx)
                    /\ Tx.hash tx = minedHash /\ tx ∈ transactions (state submittedNode))
     /\ (~ included minedHash (state submittedNode)
         <-> Response.result (fst out) = Some RNull).
Proof.
  assert (H : reachable submittedNode) by apply reachable_run, reachable_node0.
  split; [exact H|].
  exact (getTransactionByHash_iff_included submittedNode (t0 + 900) (Some 2) minedHash [] H).
Defined.

(** ** The pool under gossip *)

Lemma find_pool_hash tx s :
  is_Some (List.find (fun t => bool_decide (Tx.hash t = Tx.hash tx)) (pendingTransactions s))
  <-> Tx.hash tx ∈ (Tx.hash <$> pendingTransactions s).
Proof.
  rewrite find_Some_exists, list_elem_of_fmap. split.
  - intros (t & Hin & Hh). apply bool_decide_eq_true in Hh. by exists t.
  - intros (t & Hh & Hin). exists t. split; [done|]. by apply bool_decide_eq_true.
Qed.

(** X17.  The transaction handler of the transport appends a gossiped transaction
    exactly when no transaction of the pool has its hash, and leaves the
    state as it is exactly when one has; so a pool whose hashes are pairwise
    distinct stays so under gossip. *)
Theorem gossiped_transaction_enters_once (tx : Tx.t) (s : State) :
  (pendingTransactions (onTransaction tx s) = pendingTransactions s ++ [tx]
   <-> Tx.hash tx ∉ (Tx.hash <$> pendingTransactions s))
  /\ (onTransaction tx s = s <-> Tx.hash tx ∈ (Tx.hash <$> pendingTransactions s))
  /\ (NoDup (Tx.hash <$> pendingTransactions s) ->
      NoDup (Tx.hash <$> pendingTransactions (onTransaction tx s))).
Proof.
  assert (Hlen : pendingTransactions s <> pendingTransactions s ++ [tx]).
  { intros E. apply (f_equal length) in E. rewrite length_app in E. simpl in E. lia. }
  pose proof (find_pool_hash tx s) as Hf. unfold onTransaction.
  destruct (List.find _ _) as [t|] eqn:E.
  - assert (Hin : Tx.hash tx ∈ (Tx.hash <$> pendingTransactions s)) by (apply Hf; by eexists).
    split; [split; [done|by intros []]|]. split; [done|done].
  - assert (Hout : Tx.hash tx ∉ (Tx.hash <$> pendingTransactions s)).
    { intros H. apply Hf in H as [? ?]. discriminate. }
    simpl. split; [done|]. split.
    + split; [|done]. intros Heq. apply (f_equal pendingTransactions) in Heq.
      simpl in Heq. by destruct Hlen.
    + intros Hnd. rewrite fmap_app. apply NoDup_app. split; [done|]. split.
      * intros h Hh Hin. apply list_elem_of_singleton in Hin. by subst h.
      * apply NoDup_singleton.
Qed.

(** ** The producer's check of a batch against a contract *)

Lemma checkFields_closed_form batchData fields : forall errors,
  fold_left (checkField batchData) fields errors
  = errors ++ (missingMessage ∘ Field.name <$> List.filter (lacking batchData) fields).
Proof.
  induction fields as [|f fields IH]; intros errors; simpl; [by rewrite app_nil_r|].
  rewrite IH. unfold checkField, lacking.
  destruct (Field.required f); simpl; [|done].
  destruct (batchValue batchData (Field.name f)); simpl; [done|].
  by rewrite <- app_assoc.
Qed.

(** X18.  [verifyBatchAgainstContract] without a contract answers invalid with the
    one error "Contract not found".  With a contract, the errors are one
    message for each required field that has no value in the batch, in the
    order of the contract; the batch is valid exactly when there is no such
    field, so fields that are not required never count, and adding values to
    a batch cannot make it invalid. *)
Theorem verifyBatchAgainstContract_reports_missing_fields (batchData : BatchData.t)
    (fields : list Field.t) :
  verifyBatchAgainstContract batchData None
    = Verdict.mk false ["Contract not found"%string]
  /\ Verdict.errors (verifyBatchAgainstContract batchData (Some fields))
     = (missingMessage ∘ Field.name <$> List.filter (lacking batchData) fields)
  /\ (Verdict.valid (verifyBatchAgainstContract batchData (Some fields)) = true
      <-> forall f, f ∈ fields -> Field.required f = true ->
                    batchValue batchData (Field.name f) = true)
  /\ (forall batchData',
        (forall name, batchValue batchData name = true -> batchValue batchData' name = true) ->
        Verdict.valid (verifyBatchAgainstContract batchData (Some fields)) = true ->
        Verdict.valid (verifyBatchAgainstContract batchData' (Some fields)) = true).
Proof.
  assert (Hvalid : forall b,
    Verdict.valid (verifyBatchAgainstContract b (Some fields)) = true
    <-> forall f, f ∈ fields -> Field.required f = true -> batchValue b (Field.name f) = true).
  { intros b. unfold verifyBatchAgainstContract. cbn [Verdict.valid].
    rewrite checkFields_closed_form, bool_decide_eq_true. simpl.
    rewrite length_fmap, length_zero_iff_nil. split.
    - intros Hnil f Hin Hreq.
      destruct (batchValue b (Field.name f)) eqn:E; [done|].
      assert (Hf : In f (List.filter (lacking b) fields)).
      { apply filter_In. split; [by apply list_elem_of_In|]. unfold lacking. by rewrite Hreq, E. }
      rewrite Hnil in Hf. destruct Hf.
    - intros H. destruct (List.filter (lacking b) fields) as [|f l] eqn:E; [done|].
      assert (Hf : In f (List.filter (lacking b) fields)) by (rewrite E; by left).
      apply filter_In in Hf as [Hin Hl]. unfold lacking in Hl.
      apply andb_true_iff in Hl as [Hreq Hv]. apply list_elem_of_In in Hin.
      rewrite (H f Hin Hreq) in Hv. discriminate. }
  split; [done|]. split.
  - unfold verifyBatchAgainstContract. cbn [Verdict.errors].
    by rewrite checkFields_closed_form.
  - split; [apply Hvalid|]. intros b' Hmore Hv. apply Hvalid. intros f Hin Hreq.
    apply Hmore. by apply (proj1 (Hvalid batchData) Hv).
Qed.

(** The verdict on a batch that has a name only, for a contract that
    requires a name and a vintage. *)
Example verifyBatchAgainstContract_sample :
  verifyBatchAgainstContract sampleBatch (Some sampleFields)
  = Verdict.mk false [missingMessage "Vintage"].
Proof. vm_compute. reflexivity. Qed.

(** ** Witnesses for the rotation and for the attempt without a parent *)

(** The rotation at the authority of position 2, for ten selections from
    the cursor 3. *)
Lemma AUTHORITIES_round_robin_witness :
  "0x456f681646d4a755815f9cb19e1acc8565a0c2ac"%string ∈ AUTHORITIES
  /\ (3 < 4)%nat
  /\ ((forall i, (i < 10)%nat ->
         selections AUTHORITIES 10 3 !! i = Some (AUTHORITIES !! ((3 + i) mod 4)%nat))
      /\ (10 / 4 <= occurrences "0x456f681646d4a755815f9cb19e1acc8565a0c2ac"
                      (selections AUTHORITIES 10 3) <= 10 / 4 + 1)%nat).
Proof.
  assert (H1 : "0x456f681646d4a755815f9cb19e1acc8565a0c2ac"%string ∈ AUTHORITIES)
    by (unfold AUTHORITIES; in_list).
  assert (H2 : (3 < 4)%nat) by lia.
  split; [exact H1|]. split; [exact H2|].
  exact (AUTHORITIES_round_robin "0x456f681646d4a755815f9cb19e1acc8565a0c2ac" 10 3 H1 H2).
Defined.

(** The attempt at the node that has mined a block and holds a second
    transfer in the pool. *)
Lemma mineBlock_without_parent_witness :
  pendingTransactions (state (run [sendTransfer (t0 + 20000) 7] minedNode)) <> []
  /\ blockAt (nextBlockNumber (state (run [sendTransfer (t0 + 20000) 7] minedNode)) - 1)
             (state (run [sendTransfer (t0 + 20000) 7] minedNode)) = None
  /\ mineBlock (t0 + 30000) (run [sendTransfer (t0 + 20000) 7] minedNode)
     = set_currentAuthorityIndex
         ((currentAuthorityIndex (run [sendTransfer (t0 + 20000) 7] minedNode) + 1) mod 4)%nat
         (run [sendTransfer (t0 + 20000) 7] minedNode).
Proof.
  assert (H1 : pendingTransactions (state (run [sendTransfer (t0 + 20000) 7] minedNode)) <> [])
    by (vm_compute; discriminate).
  assert (H2 : blockAt (nextBlockNumber (state (run [sendTransfer (t0 + 20000) 7] minedNode)) - 1)
                       (state (run [sendTransfer (t0 + 20000) 7] minedNode)) = None)
    by (vm_compute; reflexivity).
  split; [exact H1|]. split; [exact H2|].
  exact (mineBlock_without_parent (t0 + 30000) (run [sendTransfer (t0 + 20000) 7] minedNode) H1 H2).
Defined.

(** ** What the transport delivers, and the supply behind it *)
















(** ** The ledger of a started node *)

Lemma startsAtGenesis_addBlock block s :
  startsAtGenesis (blocks s) -> startsAtGenesis (blocks (addBlock block s)).
Proof.
  intros (g & rest & Hc & Hg). unfold addBlock.
  destruct (List.find _ _); [by exists g, rest|]. simpl.
  exists g, (rest ++ [block]). by rewrite Hc.
Qed.

(** X20.  In every state a started node can reach, the chain begins with the
    genesis block (number 0, the zero hash as parent, no transactions), the
    hashes of its blocks are pairwise distinct, and [state.transactions] is
    exactly the transactions of the blocks, block by block in chain
    order. *)
Theorem ledger_of_a_started_node (n : Node) :
  reachable n ->
  startsAtGenesis (blocks (state n))
  /\ NoDup (Block.hash <$> blocks (state n))
  /\ transactions (state n) = concat (Block.transactions <$> blocks (state n)).
Proof.
  intros Hr. split; [|split].
  - revert n Hr. apply (ledger_reachable (fun bs _ _ _ => startsAtGenesis bs)).
    + intros block s. apply startsAtGenesis_addBlock.
    + intros now. by eexists _, [].
  - by apply reachable_distinct_hashes.
  - by apply reachable_chainIndexed.
Qed.

(** The theorem at the node that has mined the transfer. *)
Lemma ledger_of_a_started_node_witness :
  reachable minedNode
  /\ (startsAtGenesis (blocks (state minedNode))
      /\ NoDup (Block.hash <$> blocks (state minedNode))
      /\ transactions (state minedNode)
         = concat (Block.transactions <$> blocks (state minedNode))).
Proof.
  assert (H : reachable minedNode) by apply reachable_run, reachable_node0.
  split; [exact H|]. exact (ledger_of_a_started_node minedNode H).
Defined.

(** ** The timer of [eth_sendTransaction] *)

Lemma addBlock_noTimer block n : noTimer n -> noTimer (on_state (addBlock block) n).
Proof.
  intros [Hm Ht]. unfold noTimer. simpl.
  by destruct (addBlock_flags block (state n)) as [-> _].
Qed.

Lemma mineBlock_noTimer now n : noTimer n -> noTimer (mineBlock now n).
Proof.
  intros [Hm Ht]. unfold mineBlock, mineBlockSync. run_M.
  destruct (bool_decide _); simpl; [done|].
  destruct (blockAt _ _) as [parent|]; simpl; [|done].
  destruct (processTransactions_frame (nextBlockNumber (state n)) (seconds now)
              (pendingTransactions (state n)) (state n)) as (_ & _ & _ & Hm' & _).
  assert (Hinv : forall m, mining (state m) = true -> timeouts m = 0%nat -> noTimer m)
    by (by intros m ? ?).
  destruct (p2pNode _).
  - apply Hinv; simpl; congruence.
  - match goal with
    | |- noTimer (on_state (addBlock ?b) ?m) => apply (addBlock_noTimer b m)
    end.
    apply Hinv; simpl; congruence.
Qed.

Lemma processMethod_noTimer now method params :
  preserves noTimer (processMethod now method params).
Proof.
  destruct (String.eqb_spec method "eth_sendTransaction") as [->|H1].
  { intros n [Hm Ht]. unfold processMethod, eth_sendTransaction. simpl. run_M.
    destruct params as [l|]; simpl; [|done].
    unfold createTransaction. destruct (l !! 0%nat) as [p|]; run_M; [|done].
    destruct (accounts (state n) !! JS.key (TxParams.from (members p))) as [a|] eqn:E;
      simpl; [|done].
    unfold bumpNonce. simpl. rewrite E. simpl.
    destruct (p2pNode (state n)); simpl; rewrite ?Hm; simpl; unfold noTimer; simpl;
      rewrite E; by split. }
  destruct (String.eqb_spec method "eth_sendRawTransaction") as [->|H2].
  { intros n [Hm Ht]. unfold processMethod, eth_sendRawTransaction. simpl. run_M.
    destruct params as [l|]; simpl; [|done].
    destruct (l !! 0%nat) as [[rawTx| |]|]; simpl; try done.
    destruct (accounts (state n) !! defaultSender) as [a|] eqn:E; simpl; [|done].
    rewrite Hm. simpl.
    destruct (JS.includes "6060604" rawTx); simpl; unfold noTimer, bumpNonce; simpl;
      by rewrite E. }
  intros n Hn. by rewrite (processMethod_reads now method params n H1 H2 n eq_refl).
Qed.

Lemma step_noTimer e n : noTimer n -> noTimer (step e n).
Proof.
  intros H. destruct e as [now body| tx | block | | now | now | i]; simpl.
  - unfold handleRPCRequest. destruct body as [request|]; [|done].
    pose proof (processMethod_noTimer now (Request.method request)
                  (Request.params request) n H) as H'.
    by destruct (processMethod _ _ _ n).
  - destruct H as [Hm Ht]. unfold noTimer, onTransaction. simpl.
    by destruct (List.find _ _).
  - destruct (validateBlock block (state n)) eqn:Ev.
    + replace (on_state (onBlock block) n) with (on_state (addBlock block) n);
        [by apply addBlock_noTimer|].
      unfold on_state, onBlock. by rewrite Ev.
    + rewrite on_state_id; [done|]. unfold onBlock. by rewrite Ev.
  - by rewrite on_state_id.
  - destruct H as [Hm Ht]. by rewrite Ht.
  - destruct (_ && _); [by apply mineBlock_noTimer|done].
  - unfold resumeMineBlock. destruct (suspended n !! i); [|done].
    by apply (addBlock_noTimer _ (set_suspended _ n)).
Qed.

(** X21.  On a started node the 500 ms timer of [eth_sendTransaction] is
    never armed: [startMining] has set [state.mining] before the first
    request, nothing on the way resets it, and the request arms the timer
    only when the node is not mining.  In every reachable state no such
    callback is waiting, a timer event changes nothing, and the only event
    that starts [mineBlock] is the 10 s interval. *)
Theorem sendTransaction_timer_is_never_armed (n : Node) (now : Z) :
  reachable n ->
  mining (state n) = true
  /\ timeouts n = 0%nat
  /\ step (Timeout now) n = n.
Proof.
  intros Hr.
  assert (H : noTimer n).
  { induction Hr as [now' Hnow|e n Hr IH]; [by split|by apply step_noTimer]. }
  destruct H as [Hm Ht]. split; [done|]. split; [done|]. simpl. by rewrite Ht.
Qed.

(** The theorem at the node that holds the transfer in the pool. *)
Lemma sendTransaction_timer_is_never_armed_witness :
  reachable submittedNode
  /\ (mining (state submittedNode) = true
      /\ timeouts submittedNode = 0%nat
      /\ step (Timeout (t0 + 1000)) submittedNode = submittedNode).
Proof.
  assert (H : reachable submittedNode) by apply reachable_run, reachable_node0.
  split; [exact H|].
  exact (sendTransaction_timer_is_never_armed submittedNode (t0 + 1000) H).
Defined.
